(** * Panel window-state manager and scroll-focus coordinator

    A shallow embedding of the window-control and navigation scripts of the
    interactive CV page, and the properties its specification states about
    them.

    The page script exists in two revisions.  Each revision is a pair of
    immediately-invoked function expressions: the window controls (the red,
    yellow and green dots of a terminal panel, and the title-state label)
    and the navigation (focusTerminal, scrollAdjusted, openFocusScroll, the
    index links and the initial URL fragment).  Both are embedded, in
    [Module Rev1] and [Module Rev2], over one model of the browser objects
    the scripts touch ([Module DOM]).

    Numbers: the scripts compute with JavaScript numbers.  They are modelled
    as exact rationals in canonical form ([Qc]); rounding of IEEE doubles
    is not modelled.

    The rest of the page script follows the same pattern: the footer year
    in Roman numerals ([Module Roman]), the palette switcher of the two
    revisions ([Module Palette], [Palette2], [Palette1]) and the colour
    parsing and letter grid of the glitch background ([Module Glitch]). *)

From Stdlib Require Import QArith Qcanon Qround Ascii Lqa.
From stdpp Require Import gmap strings list numbers.

Open Scope string_scope.
Open Scope list_scope.
Open Scope nat_scope.

(* ================================================================== *)
(** * The browser objects the scripts use *)
(* ================================================================== *)

Module DOM.

(** The result of [el.getBoundingClientRect()]: only the vertical
    coordinates are read.  [bottom] is derived, as in the DOM. *)
Record DOMRect := mkRect { rect_top : Qc; rect_height : Qc }.

Definition rect_bottom (r : DOMRect) : Qc := rect_top r + rect_height r.

(** An element of the document.  [classList] is the element's set of class
    tokens; [attributes] the names of the attributes it carries (only the
    presence of [data-adjust-scroll] is ever tested); [title] is the
    [data-state] attribute of the element's first [.title] descendant, and
    [None] when there is no such descendant.  An empty [el_id] stands for
    an element without an id. *)
Record Element := mkElement {
  el_id : string;
  classList : gset string;
  attributes : gset string;
  title : option string
}.

Definition with_classList (f : gset string → gset string) (e : Element) : Element :=
  {| el_id := el_id e; classList := f (classList e);
     attributes := attributes e; title := title e |}.

Definition with_title (s : string) (e : Element) : Element :=
  {| el_id := el_id e; classList := classList e;
     attributes := attributes e; title := Some s |}.

(** What the scripts read from the window and the layout at the moment a
    handler runs: the toolbar's rectangle (if there is a [.toolbar]),
    [window.scrollY], [window.innerHeight] and the bounding rectangle of
    each element.  Elements are referred to by their position in the
    document. *)
Record Viewport := mkViewport {
  toolbar : option DOMRect;
  scrollY : Qc;
  innerHeight : Qc;
  getBoundingClientRect : nat → DOMRect
}.

Inductive ScrollBehavior := smooth | auto.

(** The calls on [window] and [history] that a handler issues. *)
Inductive Call :=
| scrollTo (top : Qc) (behavior : ScrollBehavior)
| scrollBy (top : Qc) (behavior : ScrollBehavior)
| scrollIntoView (el : nat)
| replaceState (url : string).

(** The callbacks handed to [setTimeout], as data: each constructor is one
    arrow function of the source together with the variables it closes
    over. *)
Inductive Task :=
| revalidation (term : nat) (offset viewportHeight : Qc)
               (fitsInViewport forceAdjust : bool)
| openInitialHash (initialHash : string).

(** The state the scripts act on: the document, the mutation observers and
    their queued records, the log of window calls, the pending timers, the
    URL fragment, the console, and the two globals the navigation script
    defines ([window.__scrollAdjusted] and the constant
    [IDs_TO_ADJUST_SCROLL]).  [historyBlocked] says whether
    [history.replaceState] throws in this environment. *)
Record World := mkWorld {
  document : list Element;
  observers : list nat;
  records : list nat;
  calls : list Call;
  timers : list (Z * Task);
  location_hash : string;
  historyBlocked : bool;
  console : list string;
  scrollAdjustedHook : bool;
  IDs_TO_ADJUST_SCROLL : gset string
}.

Definition set_document (d : list Element) (w : World) : World :=
  {| document := d; observers := observers w; records := records w;
     calls := calls w; timers := timers w; location_hash := location_hash w;
     historyBlocked := historyBlocked w; console := console w;
     scrollAdjustedHook := scrollAdjustedHook w;
     IDs_TO_ADJUST_SCROLL := IDs_TO_ADJUST_SCROLL w |}.

Definition set_observers (o : list nat) (w : World) : World :=
  {| document := document w; observers := o; records := records w;
     calls := calls w; timers := timers w; location_hash := location_hash w;
     historyBlocked := historyBlocked w; console := console w;
     scrollAdjustedHook := scrollAdjustedHook w;
     IDs_TO_ADJUST_SCROLL := IDs_TO_ADJUST_SCROLL w |}.

Definition set_records (r : list nat) (w : World) : World :=
  {| document := document w; observers := observers w; records := r;
     calls := calls w; timers := timers w; location_hash := location_hash w;
     historyBlocked := historyBlocked w; console := console w;
     scrollAdjustedHook := scrollAdjustedHook w;
     IDs_TO_ADJUST_SCROLL := IDs_TO_ADJUST_SCROLL w |}.

Definition issue (c : Call) (w : World) : World :=
  {| document := document w; observers := observers w; records := records w;
     calls := calls w ++ [c]; timers := timers w;
     location_hash := location_hash w;
     historyBlocked := historyBlocked w; console := console w;
     scrollAdjustedHook := scrollAdjustedHook w;
     IDs_TO_ADJUST_SCROLL := IDs_TO_ADJUST_SCROLL w |}.

Definition setTimeout (t : Task) (delay : Z) (w : World) : World :=
  {| document := document w; observers := observers w; records := records w;
     calls := calls w; timers := timers w ++ [(delay, t)];
     location_hash := location_hash w;
     historyBlocked := historyBlocked w; console := console w;
     scrollAdjustedHook := scrollAdjustedHook w;
     IDs_TO_ADJUST_SCROLL := IDs_TO_ADJUST_SCROLL w |}.

Definition set_location_hash (h : string) (w : World) : World :=
  {| document := document w; observers := observers w; records := records w;
     calls := calls w; timers := timers w; location_hash := h;
     historyBlocked := historyBlocked w; console := console w;
     scrollAdjustedHook := scrollAdjustedHook w;
     IDs_TO_ADJUST_SCROLL := IDs_TO_ADJUST_SCROLL w |}.

Definition console_error (msg : string) (w : World) : World :=
  {| document := document w; observers := observers w; records := records w;
     calls := calls w; timers := timers w; location_hash := location_hash w;
     historyBlocked := historyBlocked w; console := console w ++ [msg];
     scrollAdjustedHook := scrollAdjustedHook w;
     IDs_TO_ADJUST_SCROLL := IDs_TO_ADJUST_SCROLL w |}.

Definition set_globals (hook : bool) (ids : gset string) (w : World) : World :=
  {| document := document w; observers := observers w; records := records w;
     calls := calls w; timers := timers w; location_hash := location_hash w;
     historyBlocked := historyBlocked w; console := console w;
     scrollAdjustedHook := hook;
     IDs_TO_ADJUST_SCROLL := ids |}.

(** ** Completions: a call returns normally or throws *)

Inductive Completion (A : Type) :=
| normal (a : A)
| throw (exn : string).
Arguments normal {A} a.
Arguments throw {A} exn.

(** [try { body } catch (e) { handler }] *)
Definition try_catch {A} (body : Completion A) (handler : string → A) : A :=
  match body with
  | normal a => a
  | throw e => handler e
  end.

(** ** classList *)

(** Every update of an observed element's class attribute queues a
    mutation record for its observer. *)
Definition classList_update (f : gset string → gset string) (el : nat)
    (w : World) : World :=
  set_records
    (records w ++ (if bool_decide (el ∈ observers w) then [el] else []))
    (set_document (alter (with_classList f) el (document w)) w).

Definition classList_add (token : string) : nat → World → World :=
  classList_update (λ s, s ∪ {[token]}).

Definition classList_remove (tokens : list string) : nat → World → World :=
  classList_update (λ s, s ∖ list_to_set tokens).

Definition classList_toggle (token : string) : nat → World → World :=
  classList_update (λ s, if decide (token ∈ s) then s ∖ {[token]} else s ∪ {[token]}).

Definition has_class (token : string) (e : Element) : bool :=
  bool_decide (token ∈ classList e).

Definition classList_contains (token : string) (el : nat) (w : World) : bool :=
  from_option (has_class token) false (document w !! el).

(** ** Selectors *)

(** A compound class selector such as [.terminal.maxwide]. *)
Definition matches (classes : list string) (e : Element) : bool :=
  forallb (λ c, has_class c e) classes.

(** [document.querySelectorAll]: the matching elements in document order,
    as a static list. *)
Definition querySelectorAll (sel : Element → bool) (w : World) : list nat :=
  filter (λ i, from_option sel false (document w !! i))
         (seq 0 (length (document w))).

Definition forEach (l : list nat) (f : nat → World → World) (w : World) : World :=
  foldl (λ w i, f i w) w l.

(** [document.getElementById]: the first element carrying the id; no
    element has the empty id. *)
Fixpoint find_id (i : string) (k : nat) (d : list Element) : option nat :=
  match d with
  | [] => None
  | e :: d' => if bool_decide (el_id e = i) then Some k else find_id i (S k) d'
  end.

Definition getElementById (i : string) (w : World) : option nat :=
  if bool_decide (i = "") then None else find_id i 0 (document w).

(** ** history *)

Definition history_replaceState (url : string) (w : World) : Completion World :=
  if historyBlocked w then throw "SecurityError"
  else normal (issue (replaceState url) (set_location_hash url w)).

(** ** Numbers, Math and String *)

(** An integer literal of the source, as a JavaScript number. *)
Definition px (n : Z) : Qc := Q2Qc (inject_Z n).

Definition Math_max (a b : Qc) : Qc := if decide (a ≤ b)%Qc then b else a.

(** [s.slice(1)] *)
Definition slice1 (s : string) : string :=
  match s with
  | EmptyString => EmptyString
  | String _ rest => rest
  end.

(** ** Mutation observers *)

Definition observe (el : nat) (w : World) : World :=
  set_observers (observers w ++ [el]) w.

End DOM.

Import DOM.

(* ================================================================== *)
(** * Second revision of the page script *)
(* ================================================================== *)

Module Rev2.
Local Open Scope Qc_scope.

(** ** Window controls *)

(** [refreshTitleState(term)]: writes the state label of [term] into its
    title's [data-state]. *)
Definition refreshTitleState (term : nat) (w : World) : World :=
  match document w !! term with
  | None => w
  | Some e =>
    match title e with
    | None => w
    | Some _ =>
      let states :=
        ((if has_class "closed" e then ["cerrada"] else []) ++
         (if has_class "minimized" e then ["minimizada"] else []) ++
         (if has_class "maxwide" e then ["max"] else []))%list in
      set_document
        (alter (with_title (String.concat " " states)) term (document w)) w
    end
  end.

(** The [forEach] over [.terminal] that runs when the script loads: one
    observer per terminal, and a first refresh of its title. *)
Definition controls_init (w : World) : World :=
  forEach (querySelectorAll (matches ["terminal"]) w)
          (λ term w, refreshTitleState term (observe term w)) w.

(** ** Navigation *)

Definition getToolbarOffset (vp : Viewport) : Qc :=
  (match toolbar vp with
   | Some t => rect_height t
   | None => px 0
   end) + px 12.

Definition focusTerminal (term : nat) (w : World) : World :=
  let w := forEach (querySelectorAll (matches ["terminal"; "maxwide"]) w)
                   (classList_remove ["maxwide"]) w in
  let w := classList_remove ["closed"; "minimized"] term w in
  classList_add "maxwide" term w.

Definition scrollAdjusted (vp : Viewport) (term : nat) (forceAdjust : bool)
    (w : World) : World :=
  let offset := getToolbarOffset vp in
  let termRect := getBoundingClientRect vp term in
  let absoluteTermTop := scrollY vp + rect_top termRect in
  let viewportHeight := innerHeight vp in
  let fitsInViewport :=
    bool_decide (rect_height termRect + offset + px 16 ≤ viewportHeight) in
  let targetScrollTop :=
    if fitsInViewport
    then Math_max (px 0)
           (absoluteTermTop - (viewportHeight - rect_height termRect) / px 2)
    else Math_max (px 0) (absoluteTermTop - offset - px 8) in
  let w := issue (scrollTo targetScrollTop smooth) w in
  setTimeout (revalidation term offset viewportHeight fitsInViewport forceAdjust)
             450 w.

(** The arrow function passed to [setTimeout] by [scrollAdjusted]; [vp] is
    the geometry at the time the timer fires. *)
Definition revalidate (vp : Viewport) (term : nat) (offset viewportHeight : Qc)
    (fitsInViewport forceAdjust : bool) (w : World) : World :=
  let r := getBoundingClientRect vp term in
  let w :=
    if bool_decide (rect_top r < offset + px 6)
    then issue (scrollBy (rect_top r - (offset + px 6)) auto) w
    else w in
  if bool_decide (viewportHeight - px 8 < rect_bottom r)
     && (fitsInViewport || forceAdjust)
  then issue (scrollBy (rect_bottom r - (viewportHeight - px 8)) auto) w
  else w.

Definition openFocusScroll (vp : Viewport) (id : string) (forceAdjust : bool)
    (w : World) : Completion World :=
  match getElementById id w with
  | None => normal w
  | Some term =>
    let w := focusTerminal term w in
    let shouldAdjust :=
      forceAdjust || bool_decide (id ∈ IDs_TO_ADJUST_SCROLL w) in
    let w := if shouldAdjust then scrollAdjusted vp term forceAdjust w else w in
    normal
      (try_catch (history_replaceState ("#" +:+ id) w)
         (λ e, console_error "History API not supported or blocked." w))
  end.

(** The body of the navigation script at load time. *)
Definition nav_init (w : World) : World :=
  let ids :=
    omap (λ i, el_id <$> document w !! i)
         (querySelectorAll
            (λ e, has_class "terminal" e
                  && bool_decide ("data-adjust-scroll" ∈ attributes e)) w) in
  let w := set_globals true (list_to_set ids) w in
  let initialHash :=
    if bool_decide (location_hash w = "") then "about"
    else slice1 (location_hash w) in
  if bool_decide (initialHash = "") then w
  else setTimeout (openInitialHash initialHash) 100 w.

(** ** Window controls: the delegated click handler *)

(** A click, as the handler sees it: the class list of
    [e.target.closest('.dot')] if there is one, and the element that
    [btn.closest('.terminal')] designates. *)
Record MouseEvent := mkMouseEvent {
  closest_dot : option (gset string);
  closest_terminal : option nat
}.

(** [closest('.terminal')] only ever returns an element of class
    [terminal]. *)
Definition closest (classes : list string) (el : option nat) (w : World)
    : option nat :=
  match el with
  | None => None
  | Some i => if from_option (matches classes) false (document w !! i)
              then Some i else None
  end.

Definition document_click (vp : Viewport) (e : MouseEvent) (w : World) : World :=
  match closest_dot e with
  | None => w
  | Some btn =>
    match closest ["terminal"] (closest_terminal e) w with
    | None => w
    | Some term =>
      let w :=
        if bool_decide ("red" ∈ btn) then
          let w := classList_toggle "closed" term w in
          classList_remove ["minimized"; "maxwide"] term w
        else if bool_decide ("yellow" ∈ btn) then
          let w := classList_toggle "minimized" term w in
          classList_remove ["closed"; "maxwide"] term w
        else if bool_decide ("green" ∈ btn) then
          let wasMaximized := classList_contains "maxwide" term w in
          let w := forEach (querySelectorAll (matches ["terminal"; "maxwide"]) w)
                           (classList_remove ["maxwide"]) w in
          let w := classList_remove ["closed"; "minimized"] term w in
          if negb wasMaximized then
            let w := classList_add "maxwide" term w in
            if scrollAdjustedHook w
            then scrollAdjusted vp term true w
            else issue (scrollIntoView term) w
          else w
        else w in
      refreshTitleState term w
    end
  end.

(** ** The event loop *)

Definition run_task (vp : Viewport) (t : Task) (w : World) : Completion World :=
  match t with
  | revalidation term offset viewportHeight fitsInViewport forceAdjust =>
    normal (revalidate vp term offset viewportHeight fitsInViewport forceAdjust w)
  | openInitialHash initialHash => openFocusScroll vp initialHash true w
  end.

(** After a handler returns, the queued mutation records are delivered:
    each observer calls [refreshTitleState] on its terminal. *)
Definition deliver_mutations (w : World) : World :=
  forEach (records w) refreshTitleState (set_records [] w).

(** What can happen after load: a click somewhere in the document, a click
    on an index link [<a href="#...">], a call of the exposed
    [window.__openFocusScroll], or a timer firing. *)
Inductive Event :=
| click (e : MouseEvent)
| anchor_click (href : string)
| call_openFocusScroll (id : string) (forceAdjust : bool)
| timeout (t : Task).

Definition handler (vp : Viewport) (ev : Event) (w : World) : Completion World :=
  match ev with
  | click e => normal (document_click vp e w)
  | anchor_click href => openFocusScroll vp (slice1 href) true w
  | call_openFocusScroll id forceAdjust => openFocusScroll vp id forceAdjust w
  | timeout t => run_task vp t w
  end.

(** One turn of the event loop.  An uncaught exception ends the handler;
    the records queued so far are still delivered. *)
Definition step (w : World) (ev : Viewport * Event) : World :=
  deliver_mutations (try_catch (handler ev.1 ev.2 w) (λ _, w)).

Definition run (evs : list (Viewport * Event)) (w : World) : World :=
  foldl step w evs.

(** The script runs once at load: controls first, then navigation. *)
Definition load (w : World) : World :=
  deliver_mutations (nav_init (controls_init w)).

End Rev2.

(* ================================================================== *)
(** * First revision of the page script *)
(* ================================================================== *)

Module Rev1.
Local Open Scope Qc_scope.

(** ** Window controls *)

(** In this revision everything lives in the body of one
    [querySelectorAll('.terminal').forEach(term => ...)]: the functions
    below are the closures created for one [term]. *)

Definition refreshTitleState (term : nat) (w : World) : World :=
  match document w !! term with
  | None => w
  | Some e =>
    match title e with
    | None => w
    | Some _ =>
      let states :=
        ((if has_class "closed" e then ["cerrada"] else []) ++
         (if has_class "minimized" e then ["minimizada"] else []) ++
         (if has_class "maxwide" e then ["max"] else []))%list in
      set_document
        (alter (with_title (String.concat " " states)) term (document w)) w
    end
  end.

Definition getToolbarOffset (vp : Viewport) : Qc :=
  (match toolbar vp with
   | Some t => rect_height t
   | None => px 0
   end) + px 12.

Definition scrollAdjusted (vp : Viewport) (term : nat) (forceAdjust : bool)
    (w : World) : World :=
  let offset := getToolbarOffset vp in
  let termRect := getBoundingClientRect vp term in
  let absoluteTermTop := scrollY vp + rect_top termRect in
  let viewportHeight := innerHeight vp in
  let fitsInViewport :=
    bool_decide (rect_height termRect + offset + px 16 ≤ viewportHeight) in
  let targetScrollTop :=
    if fitsInViewport
    then Math_max (px 0)
           (absoluteTermTop - (viewportHeight - rect_height termRect) / px 2)
    else Math_max (px 0) (absoluteTermTop - offset - px 8) in
  let w := issue (scrollTo targetScrollTop smooth) w in
  setTimeout (revalidation term offset viewportHeight fitsInViewport forceAdjust)
             450 w.

Definition revalidate (vp : Viewport) (term : nat) (offset viewportHeight : Qc)
    (fitsInViewport forceAdjust : bool) (w : World) : World :=
  let r := getBoundingClientRect vp term in
  let w :=
    if bool_decide (rect_top r < offset + px 6)
    then issue (scrollBy (rect_top r - (offset + px 6)) auto) w
    else w in
  if bool_decide (viewportHeight - px 8 < rect_bottom r)
     && (fitsInViewport || forceAdjust)
  then issue (scrollBy (rect_bottom r - (viewportHeight - px 8)) auto) w
  else w.

Definition redBtn_click (term : nat) (w : World) : World :=
  let w := classList_toggle "closed" term w in
  let w := classList_remove ["minimized"; "maxwide"] term w in
  refreshTitleState term w.

Definition yellowBtn_click (term : nat) (w : World) : World :=
  let w := classList_toggle "minimized" term w in
  let w := classList_remove ["closed"; "maxwide"] term w in
  refreshTitleState term w.

Definition greenBtn_click (vp : Viewport) (term : nat) (w : World) : World :=
  let wasMaximized := classList_contains "maxwide" term w in
  let w := forEach (querySelectorAll (matches ["terminal"; "maxwide"]) w)
                   (classList_remove ["maxwide"]) w in
  let w := classList_remove ["closed"; "minimized"] term w in
  let w :=
    if negb wasMaximized then
      let w := classList_add "maxwide" term w in
      if scrollAdjustedHook w
      then scrollAdjusted vp term true w
      else issue (scrollIntoView term) w
    else w in
  refreshTitleState term w.

Definition controls_init (w : World) : World :=
  forEach (querySelectorAll (matches ["terminal"]) w)
          (λ term w, refreshTitleState term (observe term w)) w.

(** ** Navigation *)

Definition focusTerminal (term : nat) (w : World) : World :=
  let w := forEach (querySelectorAll (matches ["terminal"; "maxwide"]) w)
                   (classList_remove ["maxwide"]) w in
  let w := classList_remove ["closed"; "minimized"] term w in
  classList_add "maxwide" term w.

Definition openFocusScroll (vp : Viewport) (id : string) (forceAdjust : bool)
    (w : World) : Completion World :=
  match getElementById id w with
  | None => normal w
  | Some term =>
    let w := focusTerminal term w in
    let shouldAdjust :=
      forceAdjust || bool_decide (id ∈ IDs_TO_ADJUST_SCROLL w) in
    let w := if shouldAdjust then scrollAdjusted vp term forceAdjust w else w in
    normal
      (try_catch (history_replaceState ("#" +:+ id) w)
         (λ e, console_error "History API not supported or blocked." w))
  end.

Definition nav_init (w : World) : World :=
  let w := set_globals true {["about"; "education"; "experience"]} w in
  let initialHash :=
    if bool_decide (location_hash w = "") then ""
    else slice1 (location_hash w) in
  if bool_decide (initialHash = "") then w
  else setTimeout (openInitialHash initialHash) 100 w.

(** ** The event loop *)

Inductive Button := red | yellow | green.

Definition run_task (vp : Viewport) (t : Task) (w : World) : Completion World :=
  match t with
  | revalidation term offset viewportHeight fitsInViewport forceAdjust =>
    normal (revalidate vp term offset viewportHeight fitsInViewport forceAdjust w)
  | openInitialHash initialHash => openFocusScroll vp initialHash true w
  end.

Definition deliver_mutations (w : World) : World :=
  forEach (records w) refreshTitleState (set_records [] w).

(** A click on one of the three buttons found in terminal [term] when the
    script loaded; the other events are those of the navigation script. *)
Inductive Event :=
| click (b : Button) (term : nat)
| anchor_click (href : string)
| call_openFocusScroll (id : string) (forceAdjust : bool)
| timeout (t : Task).

(** Listeners were attached only to the buttons of elements of class
    [terminal]. *)
Definition button_click (vp : Viewport) (b : Button) (term : nat) (w : World)
    : World :=
  if from_option (matches ["terminal"]) false (document w !! term) then
    match b with
    | red => redBtn_click term w
    | yellow => yellowBtn_click term w
    | green => greenBtn_click vp term w
    end
  else w.

Definition handler (vp : Viewport) (ev : Event) (w : World) : Completion World :=
  match ev with
  | click b term => normal (button_click vp b term w)
  | anchor_click href => openFocusScroll vp (slice1 href) true w
  | call_openFocusScroll id forceAdjust => openFocusScroll vp id forceAdjust w
  | timeout t => run_task vp t w
  end.

Definition step (w : World) (ev : Viewport * Event) : World :=
  deliver_mutations (try_catch (handler ev.1 ev.2 w) (λ _, w)).

Definition run (evs : list (Viewport * Event)) (w : World) : World :=
  foldl step w evs.

Definition load (w : World) : World :=
  deliver_mutations (nav_init (controls_init w)).

End Rev1.

(* ================================================================== *)
(** * The vocabulary of the specification *)
(* ================================================================== *)

Module Panel.

(** A panel is an element of class [terminal]; its three flags are the
    classes [closed], [minimized] and [maxwide]. *)
Definition is_panel (e : Element) : bool := has_class "terminal" e.
Definition closed (e : Element) : bool := has_class "closed" e.
Definition minimized (e : Element) : bool := has_class "minimized" e.
Definition maximized (e : Element) : bool := has_class "maxwide" e.

(** At most one of the three flags is set. *)
Definition flags_exclusive (e : Element) : bool :=
  negb (closed e && minimized e) && negb (closed e && maximized e)
  && negb (minimized e && maximized e).

(** The maximized panels of the document. *)
Definition maximized_panels (w : World) : list nat :=
  querySelectorAll (λ e, is_panel e && maximized e) w.

Definition at_most_one_maximized (w : World) : Prop :=
  length (maximized_panels w) ≤ 1.

(** The classes of every element, in document order: what is left of the
    document when titles are forgotten. *)
Definition classes (w : World) : list (gset string) :=
  classList <$> document w.

(** Every panel of the document has at most one flag set. *)
Definition all_exclusive (w : World) : Prop :=
  Forall (λ e, is_panel e = true → flags_exclusive e = true) (document w).

(** The label the scripts derive from the flags. *)
Definition state_label (e : Element) : string :=
  String.concat " "
    ((if closed e then ["cerrada"] else []) ++
     (if minimized e then ["minimizada"] else []) ++
     (if maximized e then ["max"] else []))%list.




(** What [refreshTitleState] does to the element it is called on. *)
Definition refreshed (e : Element) : Element :=
  match title e with
  | Some _ => with_title (state_label e) e
  | None => e
  end.

Definition title_ok (e : Element) : Prop :=
  ∀ s, title e = Some s → s = state_label e.



End Panel.

Import Panel.


(* ================================================================== *)
(** * The handlers, seen on the class lists alone *)
(* ================================================================== *)

Module ClassView.

(** What [.terminal.maxwide -> remove maxwide] does to one class list. *)
Definition unmaximize (s : gset string) : gset string :=
  if bool_decide ("terminal" ∈ s) then s ∖ {["maxwide"]} else s.

Definition toggle (c : string) (s : gset string) : gset string :=
  if decide (c ∈ s) then s ∖ {[c]} else s ∪ {[c]}.

(** red, yellow: toggle one class, remove the two others. *)
Definition red_f (s : gset string) : gset string :=
  toggle "closed" s ∖ list_to_set ["minimized"; "maxwide"].
Definition yellow_f (s : gset string) : gset string :=
  toggle "minimized" s ∖ list_to_set ["closed"; "maxwide"].

(** green, on the target, after the others were unmaximized. *)
Definition green_f (wasMaximized : bool) (s : gset string) : gset string :=
  if wasMaximized then s ∖ list_to_set ["closed"; "minimized"]
  else s ∖ list_to_set ["closed"; "minimized"] ∪ {["maxwide"]}.

Definition focus_f (s : gset string) : gset string :=
  s ∖ list_to_set ["closed"; "minimized"] ∪ {["maxwide"]}.

(** One handler's effect on the class lists of the document. *)
Inductive class_step (l : list (gset string)) : list (gset string) → Prop :=
| cs_none : class_step l l
| cs_red i : class_step l (alter red_f i l)
| cs_yellow i : class_step l (alter yellow_f i l)
| cs_green i s :
    l !! i = Some s → "terminal" ∈ s →
    class_step l (alter (green_f (bool_decide ("maxwide" ∈ s))) i (unmaximize <$> l))
| cs_focus i : class_step l (alter focus_f i (unmaximize <$> l)).

(** At most one class list of the document is that of a maximized panel. *)
Definition one_maximized (l : list (gset string)) : Prop :=
  ∀ i j si sj, l !! i = Some si → l !! j = Some sj →
    "terminal" ∈ si → "maxwide" ∈ si →
    "terminal" ∈ sj → "maxwide" ∈ sj → i = j.

(** No class list of a panel holds two of the three flags. *)
Definition exclusive (s : gset string) : Prop :=
  ¬ ("closed" ∈ s ∧ "minimized" ∈ s) ∧ ¬ ("closed" ∈ s ∧ "maxwide" ∈ s) ∧
  ¬ ("minimized" ∈ s ∧ "maxwide" ∈ s).

Definition panels_exclusive (l : list (gset string)) : Prop :=
  ∀ i s, l !! i = Some s → "terminal" ∈ s → exclusive s.

End ClassView.

Import ClassView.

(* ================================================================== *)
(** * The first revision's events, as events of the second *)
(* ================================================================== *)

Module Simulation.

(** A click on the red, yellow or green button of a terminal is a click
    whose closest [.dot] carries that colour. *)
Definition dot_of (b : Rev1.Button) : gset string :=
  match b with
  | Rev1.red => {["dot"; "red"]}
  | Rev1.yellow => {["dot"; "yellow"]}
  | Rev1.green => {["dot"; "green"]}
  end.

Definition as_rev2 (ev : Rev1.Event) : Rev2.Event :=
  match ev with
  | Rev1.click b term =>
    Rev2.click (Rev2.mkMouseEvent (Some (dot_of b)) (Some term))
  | Rev1.anchor_click href => Rev2.anchor_click href
  | Rev1.call_openFocusScroll id forceAdjust =>
    Rev2.call_openFocusScroll id forceAdjust
  | Rev1.timeout t => Rev2.timeout t
  end.

End Simulation.

Import Simulation.

(* ================================================================== *)
(** * A small page to run the scripts on *)
(* ================================================================== *)

Module Page.

Definition panel (id : string) (classes attrs : list string) : Element :=
  {| el_id := id; classList := list_to_set ("terminal" :: classes);
     attributes := list_to_set attrs; title := Some "" |}.

(** Three panels and the index (which is not a panel), as the browser
    hands them to the script: nothing observed, queued or scheduled. *)
Definition page (doc : list Element) (hash : string) (blocked : bool) : World :=
  {| document := doc; observers := []; records := []; calls := [];
     timers := []; location_hash := hash; historyBlocked := blocked;
     console := []; scrollAdjustedHook := false;
     IDs_TO_ADJUST_SCROLL := ∅ |}.

Definition cv : list Element :=
  [ {| el_id := "sections"; classList := {["index"]}; attributes := ∅;
       title := None |};
    panel "about" [] ["data-adjust-scroll"];
    panel "education" [] ["data-adjust-scroll"];
    panel "skills" [] [] ].

(** A viewport 800 high under a toolbar 38 high (offset 50), scrolled to
    1000, in which every element is 300 high with its top at 20. *)
Definition desktop : Viewport :=
  {| toolbar := Some (mkRect (px 0) (px 38)); scrollY := px 1000;
     innerHeight := px 800;
     getBoundingClientRect := λ _, mkRect (px 20) (px 300) |}.


Definition dot (colour : string) (term : nat) : Rev2.MouseEvent :=
  Rev2.mkMouseEvent (Some {["dot"; colour]}) (Some term).

End Page.

Import Page.

(* ================================================================== *)
(** * The year in Roman numerals *)
(* ================================================================== *)

Module Roman.
Local Open Scope Z_scope.

Definition romanMap : list (Z * string) :=
  [(1000, "M"); (900, "CM"); (500, "D"); (400, "CD");
   (100, "C"); (90, "XC"); (50, "L"); (40, "XL");
   (10, "X"); (9, "IX"); (5, "V"); (4, "IV"); (1, "I")].

(** [while (num >= value) { result += symbol; num -= value; }], run for
    at most [fuel] iterations on the pair (result, num). *)
Fixpoint while_ge (fuel : nat) (value : Z) (symbol : string)
    (st : string * Z) : string * Z :=
  match fuel with
  | O => st
  | S fuel =>
    if bool_decide (value ≤ st.2)
    then while_ge fuel value symbol (st.1 +:+ symbol, st.2 - value)
    else st
  end.

(** The [for ... of romanMap] loop around it. *)
Definition toRoman_fuel (fuel : nat) (num : Z) : string :=
  (foldl (λ st entry, while_ge fuel entry.1 entry.2 st) ("", num) romanMap).1.

(** [toRoman(num)]: no loop of it runs more than [num] times. *)
Definition toRoman (num : Z) : string := toRoman_fuel (Z.to_nat num) num.

(** The usual reading of a Roman numeral: a symbol counts negatively when
    a larger one follows it. *)
Definition symbol_value (c : ascii) : Z :=
  if bool_decide (c = "I"%char) then 1
  else if bool_decide (c = "V"%char) then 5
  else if bool_decide (c = "X"%char) then 10
  else if bool_decide (c = "L"%char) then 50
  else if bool_decide (c = "C"%char) then 100
  else if bool_decide (c = "D"%char) then 500
  else if bool_decide (c = "M"%char) then 1000
  else 0.

Fixpoint roman_value (s : string) : Z :=
  match s with
  | EmptyString => 0
  | String c rest =>
    match rest with
    | EmptyString => symbol_value c
    | String c' _ =>
      if bool_decide (symbol_value c < symbol_value c')
      then roman_value rest - symbol_value c
      else roman_value rest + symbol_value c
    end
  end.

(** No symbol four times in a row. *)
Fixpoint four_in_a_row (s : string) : bool :=
  match s with
  | String a (String b (String c (String d _) as r3) as r2 as r1) =>
    (bool_decide (a = b) && bool_decide (b = c) && bool_decide (c = d))
    || four_in_a_row r1
  | _ => false
  end.

Fixpoint repeat_string (n : nat) (s : string) : string :=
  match n with
  | O => ""
  | S n => s +:+ repeat_string n s
  end.

(** What one [while] loop computes: quotient and remainder. *)
Definition divide_out (st : string * Z) (entry : Z * string) : string * Z :=
  if bool_decide (0 ≤ st.2)
  then (st.1 +:+ repeat_string (Z.to_nat (st.2 / entry.1)) entry.2,
        st.2 mod entry.1)
  else st.

End Roman.

Import Roman.

(* ================================================================== *)
(** * The palette switcher and the footer year *)
(* ================================================================== *)

Module Palette.

Definition PALETTES : list string :=
  ["one-dark"; "dracula"; "nord"; "solarized"; "gruvbox"; "monokai";
   "tokyonight"; "catppuccin"; "night-owl"].

Definition PALETTE_NAMES : gmap string string :=
  list_to_map
    [("one-dark", "One Dark"); ("dracula", "Dracula"); ("nord", "Nord");
     ("solarized", "Solarized"); ("gruvbox", "Gruvbox");
     ("monokai", "Monokai"); ("tokyonight", "Tokyo Night");
     ("catppuccin", "Catppuccin"); ("night-owl", "Night Owl")].

(** What the main script touches besides the terminals: the text of the
    [#yearRoman] elements, the [data-palette] attribute of the root
    element, [localStorage] ([None] when access to it throws, as in a
    browser that blocks storage), and the text of [#paletteName] ([None]
    when there is no such element). *)
Record Chrome := mkChrome {
  yearRoman : list string;
  data_palette : option string;
  localStorage : option (gmap string string);
  paletteName : option string
}.

Definition set_yearRoman (y : list string) (c : Chrome) : Chrome :=
  {| yearRoman := y; data_palette := data_palette c;
     localStorage := localStorage c; paletteName := paletteName c |}.

Definition set_data_palette (p : string) (c : Chrome) : Chrome :=
  {| yearRoman := yearRoman c; data_palette := Some p;
     localStorage := localStorage c; paletteName := paletteName c |}.

Definition set_localStorage (m : gmap string string) (c : Chrome) : Chrome :=
  {| yearRoman := yearRoman c; data_palette := data_palette c;
     localStorage := Some m; paletteName := paletteName c |}.

Definition set_paletteName (t : string) (c : Chrome) : Chrome :=
  {| yearRoman := yearRoman c; data_palette := data_palette c;
     localStorage := localStorage c; paletteName := Some t |}.

(** [a || b] on a string that may be null: the empty string is falsy. *)
Definition or_else (a : option string) (b : string) : string :=
  match a with
  | Some s => if bool_decide (s = "") then b else s
  | None => b
  end.

(** [array.indexOf(x)] *)
Fixpoint indexOf_from (x : string) (k : Z) (l : list string) : Z :=
  match l with
  | [] => (-1)%Z
  | y :: l' => if bool_decide (y = x) then k else indexOf_from x (k + 1)%Z l'
  end.

Definition indexOf (x : string) (l : list string) : Z := indexOf_from x 0 l.

(** [array.includes(x)] *)
Definition includes (x : string) (l : list string) : bool :=
  bool_decide (x ∈ l).

(** [array[i]], converted to a string where it is used: an index outside
    the array gives [undefined]. *)
Definition at_index (l : list string) (i : Z) : string :=
  if bool_decide (0 ≤ i)%Z then default "undefined" (l !! Z.to_nat i)
  else "undefined".

(** [Math.floor] *)
Definition Math_floor (x : Qc) : Z := Qfloor (this x).

(** The text of every [#yearRoman] becomes the year in Roman numerals. *)
Definition update_year (year : Z) (c : Chrome) : Chrome :=
  set_yearRoman ((λ _, toRoman year) <$> yearRoman c) c.

Definition getCurrentPalette (c : Chrome) : string :=
  or_else (data_palette c) (at_index PALETTES 0).

(** The name shown for a palette: [PALETTE_NAMES[palette] || palette].
    Only the nine properties the source lists are looked up; those an
    object inherits are not modelled ([setPalette] is only ever given
    elements of [PALETTES]). *)
Definition display_name (palette : string) : string :=
  or_else (PALETTE_NAMES !! palette) palette.

Definition show_name (palette : string) (c : Chrome) : Chrome :=
  match paletteName c with
  | Some _ => set_paletteName (display_name palette) c
  | None => c
  end.

(** The initial palette, from the saved one and [Math.random()]. *)
Definition choose_initial (savedPalette : option string) (random : Qc) : string :=
  if bool_decide (or_else savedPalette "" ≠ "")
     && includes (or_else savedPalette "") PALETTES
  then or_else savedPalette ""
  else at_index PALETTES (Math_floor (random * px (Z.of_nat (length PALETTES)))).

Definition next_palette (current : string) : string :=
  let nextIndex :=
    Z.rem (indexOf current PALETTES + 1) (Z.of_nat (length PALETTES)) in
  at_index PALETTES nextIndex.

(** A script either runs to its end or stops at an uncaught exception;
    what it did before stays done. *)
Inductive Outcome (S : Type) :=
| completed (s : S)
| aborted (exn : string) (s : S).
Arguments completed {S} s.
Arguments aborted {S} exn s.

Definition state_of {S} (o : Outcome S) : S :=
  match o with
  | completed s => s
  | aborted _ s => s
  end.

End Palette.

Import Palette.

(** ** Second revision: storage behind [safeStorage] *)

Module Palette2.

(** [safeStorage.get]: [null] when the access throws. *)
Definition safeStorage_get (key : string) (c : Chrome) : option string :=
  match localStorage c with
  | Some m => m !! key
  | None => None
  end.

(** [safeStorage.set]: nothing when the access throws. *)
Definition safeStorage_set (key value : string) (c : Chrome) : Chrome :=
  match localStorage c with
  | Some m => set_localStorage (<[key := value]> m) c
  | None => c
  end.

Definition setPalette (palette : string) (c : Chrome) : Chrome :=
  let c := set_data_palette palette c in
  let c := safeStorage_set "palette" palette c in
  show_name palette c.

(** The palette part of the script at load. *)
Definition palette_init (random : Qc) (c : Chrome) : Chrome :=
  let savedPalette := safeStorage_get "palette" c in
  setPalette (choose_initial savedPalette random) c.

(** The click handler of [#togglePalette]. *)
Definition palette_click (c : Chrome) : Chrome :=
  let current := getCurrentPalette c in
  setPalette (next_palette current) c.

(** The main function of the script at load: the year, the palette, then
    the window controls. *)
Definition main (year : Z) (random : Qc) (st : Chrome * World)
    : Outcome (Chrome * World) :=
  let c := update_year year st.1 in
  let c := palette_init random c in
  completed (c, Rev2.controls_init st.2).

End Palette2.

(** ** First revision: [localStorage] used directly *)

Module Palette1.

Definition setPalette (palette : string) (c : Chrome) : Outcome Chrome :=
  let c := set_data_palette palette c in
  match localStorage c with
  | None => aborted "SecurityError" c
  | Some m =>
    let c := set_localStorage (<[ "palette" := palette ]> m) c in
    completed (show_name palette c)
  end.

Definition palette_init (random : Qc) (c : Chrome) : Outcome Chrome :=
  match localStorage c with
  | None => aborted "SecurityError" c
  | Some m =>
    let savedPalette := m !! "palette" in
    setPalette (choose_initial savedPalette random) c
  end.

Definition palette_click (c : Chrome) : Outcome Chrome :=
  let current := getCurrentPalette c in
  setPalette (next_palette current) c.

(** The main function of the script at load.  An exception in the
    palette part ends it: the window controls after it are not set up. *)
Definition main (year : Z) (random : Qc) (st : Chrome * World)
    : Outcome (Chrome * World) :=
  let c := update_year year st.1 in
  match palette_init random c with
  | aborted e c => aborted e (c, st.2)
  | completed c => completed (c, Rev1.controls_init st.2)
  end.

End Palette1.

(* ================================================================== *)
(** * The glitch background *)
(* ================================================================== *)

Module Glitch.
Local Open Scope Z_scope.

(** ** Colours *)

(** [[a-f\d]] under the [i] flag. *)
Definition is_hex (c : ascii) : bool :=
  let n := Z.of_nat (nat_of_ascii c) in
  bool_decide (48 ≤ n ≤ 57) || bool_decide (97 ≤ n ≤ 102)
  || bool_decide (65 ≤ n ≤ 70).

(** The value [parseInt] gives a hexadecimal digit. *)
Definition hex_value (c : ascii) : Z :=
  let n := Z.of_nat (nat_of_ascii c) in
  if bool_decide (48 ≤ n ≤ 57) then n - 48
  else if bool_decide (97 ≤ n ≤ 102) then n - 87
  else n - 55.

(** [#?] at the start of a pattern whose next item is a hexadecimal
    digit: a leading [#] is consumed. *)
Definition after_hash (s : string) : string :=
  match s with
  | String "#" rest => rest
  | _ => s
  end.

(** [/^#?([a-f\d])([a-f\d])([a-f\d])$/i]: the three groups. *)
Definition match_shorthand (s : string) : option (ascii * ascii * ascii) :=
  match after_hash s with
  | String r (String g (String b EmptyString)) =>
    if is_hex r && is_hex g && is_hex b then Some (r, g, b) else None
  | _ => None
  end.

(** [/^#?([a-f\d]{2})([a-f\d]{2})([a-f\d]{2})$/i]: the three groups. *)
Definition match_full (s : string)
    : option ((ascii * ascii) * (ascii * ascii) * (ascii * ascii)) :=
  match after_hash s with
  | String r1 (String r2 (String g1 (String g2 (String b1 (String b2
      EmptyString))))) =>
    if is_hex r1 && is_hex r2 && is_hex g1 && is_hex g2
       && is_hex b1 && is_hex b2
    then Some ((r1, r2), (g1, g2), (b1, b2)) else None
  | _ => None
  end.

(** [parseInt(xy, 16)] on two hexadecimal digits. *)
Definition parseInt16 (xy : ascii * ascii) : Z :=
  16 * hex_value xy.1 + hex_value xy.2.

(** The object [{ r, g, b }] that [hexToRgb] returns. *)
Record RGB := mkRGB { red : Z; green : Z; blue : Z }.

Definition hexToRgb (hex : string) : option RGB :=
  let hex :=
    match match_shorthand hex with
    | Some (r, g, b) =>
      String r (String r (String g (String g (String b (String b
        EmptyString)))))
    | None => hex
    end in
  match match_full hex with
  | Some (r, g, b) =>
    Some {| red := parseInt16 r; green := parseInt16 g; blue := parseInt16 b |}
  | None => None
  end.

(** A string of hexadecimal digits only. *)
Fixpoint all_hex (s : string) : bool :=
  match s with
  | EmptyString => true
  | String c rest => is_hex c && all_hex rest
  end.

(** Two lower-case hexadecimal digits for a number below 256. *)
Definition hex_char (d : Z) : ascii :=
  ascii_of_nat (Z.to_nat (if bool_decide (d < 10) then d + 48 else d + 87)).

Definition hex_pair (n : Z) : string :=
  String (hex_char (n / 16)) (String (hex_char (n mod 16)) EmptyString).

(** ** The grid of letters *)

Definition charWidth : Z := 10.
Definition charHeight : Z := 20.

Definition lettersAndSymbols : list string :=
  ["A"; "B"; "C"; "D"; "E"; "F"; "G"; "H"; "I"; "J"; "K"; "L"; "M"; "N";
   "O"; "P"; "Q"; "R"; "S"; "T"; "U"; "V"; "W"; "X"; "Y"; "Z"; "!"; "@";
   "#"; "$"; "&"; "*"; "("; ")"; "-"; "_"; "+"; "="; "/"; "["; "]"; "{";
   "}"; ";"; ":"; "<"; ">"; ","; "0"; "1"; "2"; "3"; "4"; "5"; "6"; "7";
   "8"; "9"].

Record Letter := mkLetter {
  char : string;
  color : string;
  targetColor : string;
  colorProgress : Qc
}.

Record Grid := mkGrid { columns : Z; rows : Z }.

(** [Math.ceil] *)
Definition Math_ceil (x : Qc) : Z := Qceiling (this x).

Definition calculateGrid (width height : Qc) : Grid :=
  {| columns := Math_ceil (width / px charWidth);
     rows := Math_ceil (height / px charHeight) |}.

(** The state of the animation the functions below share. *)
Record State := mkState {
  letters : list Letter;
  grid : Grid;
  glitchColors : list string;
  canvasWidth : Qc;
  canvasHeight : Qc
}.

(** The successive results of [Math.random()], by position. *)
Definition Random := nat → Qc.

Definition getRandomChar (r : Qc) : string :=
  at_index lettersAndSymbols
    (Math_floor (r * px (Z.of_nat (length lettersAndSymbols)))).

Definition getRandomColor (st : State) (r : Qc) : string :=
  at_index (glitchColors st)
    (Math_floor (r * px (Z.of_nat (length (glitchColors st))))).

(** [initializeLetters(columns, rows)]: letter [i] takes the draws
    [3i], [3i+1] and [3i+2]. *)
Definition initializeLetters (columns rows : Z) (rnd : Random) (st : State)
    : State :=
  let total := columns * rows in
  {| letters :=
       (λ i, {| char := getRandomChar (rnd (3 * i)%nat);
                color := getRandomColor st (rnd (3 * i + 1)%nat);
                targetColor := getRandomColor st (rnd (3 * i + 2)%nat);
                colorProgress := px 1 |}) <$> seq 0 (Z.to_nat total);
     grid := {| columns := columns; rows := rows |};
     glitchColors := glitchColors st;
     canvasWidth := canvasWidth st;
     canvasHeight := canvasHeight st |}.

Definition fontSize : Z := 16.

(** What [drawLetters] does to the canvas context; [fillText] carries the
    [fillStyle] set just before it. *)
Inductive CanvasCall :=
| clearRect (x y w h : Qc)
| set_font (size : Z) (family : string)
| set_textBaseline (baseline : string)
| fillText (text fillStyle : string) (x y : Z).

(** [drawLetters()]: letter [index] is drawn in column
    [index % grid.columns] of row [Math.floor(index / grid.columns)].
    A grid without columns has no letters ([initializeLetters]), so
    that nothing is divided by zero. *)
Definition drawLetters (st : State) : list CanvasCall :=
  clearRect (px 0) (px 0) (canvasWidth st) (canvasHeight st)
  :: set_font fontSize "monospace"
  :: set_textBaseline "top"
  :: imap (λ index letter,
             let x := Z.rem (Z.of_nat index) (columns (grid st)) * charWidth in
             let y := (Z.of_nat index / columns (grid st)) * charHeight in
             fillText (char letter) (color letter) x y)
          (letters st).

(** Where the letters are drawn. *)
Definition positions (calls : list CanvasCall) : list (Z * Z) :=
  omap (λ c, match c with
             | fillText _ _ x y => Some (x, y)
             | _ => None
             end) calls.

End Glitch.

Import Glitch.

#[local] Set Warnings "-clear-no-such-hyp".

(* ================================================================== *)
(** * Facts about the browser primitives *)
(* ================================================================== *)

Section primitives.
Implicit Types (w : World) (e : Element) (s : gset string) (i j term : nat).

Lemma classes_lookup w i :
  classes w !! i = classList <$> document w !! i.
Proof. apply list_lookup_fmap. Qed.

Lemma classes_classList_update f i w :
  classes (classList_update f i w) = alter f i (classes w).
Proof.
  unfold classes, classList_update. simpl.
  apply list_fmap_alter, Forall_forall. intros e _. reflexivity.
Qed.

Lemma classes_forEach_update f (l : list nat) w :
  (∀ s, f (f s) = f s) →
  ∀ j, classes (forEach l (classList_update f) w) !! j
       = (if bool_decide (j ∈ l) then f else λ s, s) <$> classes w !! j.
Proof.
  intros Hidem. unfold forEach. revert w.
  induction l as [|a l IH]; intros w j; simpl.
  - by destruct (classes w !! j).
  - rewrite IH, classes_classList_update.
    destruct (decide (j = a)) as [->|Hne].
    + rewrite list_lookup_alter_eq, (bool_decide_true (a ∈ a :: l)) by set_solver.
      destruct (classes w !! a) as [s|]; simpl; [|done].
      case_bool_decide; by rewrite ?Hidem.
    + rewrite list_lookup_alter_ne by done.
      destruct (classes w !! j) as [s|]; simpl; [|done].
      f_equal. rewrite (bool_decide_ext (j ∈ a :: l) (j ∈ l)); set_solver.
Qed.

End primitives.

Section class_view.
Implicit Types (w : World) (e : Element) (s : gset string) (i j term : nat).

Lemma elem_of_querySelectorAll sel w j :
  j ∈ querySelectorAll sel w ↔ ∃ e, document w !! j = Some e ∧ sel e = true.
Proof.
  unfold querySelectorAll. rewrite list_elem_of_filter, elem_of_seq.
  split.
  - intros [Hsel _]. destruct (document w !! j) as [e|]; simpl in *; [|done].
    exists e. split; [done|]. by apply Is_true_true.
  - intros (e & He & Hsel). rewrite He. simpl. split; [by apply Is_true_true|].
    apply lookup_lt_Some in He. lia.
Qed.

Lemma classes_unmaximize_all w :
  classes (forEach (querySelectorAll (matches ["terminal"; "maxwide"]) w)
                   (classList_remove ["maxwide"]) w)
  = unmaximize <$> classes w.
Proof.
  apply list_eq. intros j. unfold classList_remove.
  rewrite classes_forEach_update by (intros; set_solver).
  rewrite list_lookup_fmap, classes_lookup.
  destruct (document w !! j) as [e|] eqn:He; simpl; [|done].
  f_equal. unfold unmaximize.
  case_bool_decide as Hin.
  - apply elem_of_querySelectorAll in Hin as (e' & He' & Hsel).
    assert (e' = e) as -> by congruence.
    unfold matches, has_class in Hsel. simpl in Hsel.
    apply andb_prop in Hsel as [Ht _]. apply bool_decide_eq_true in Ht.
    rewrite bool_decide_true by done. set_solver.
  - case_bool_decide as Ht; [|done].
    assert ("maxwide" ∉ classList e) as Hm.
    { intros Hm. apply Hin, elem_of_querySelectorAll. exists e. split; [done|].
      unfold matches, has_class. simpl.
      by rewrite !bool_decide_true. }
    set_solver.
Qed.

Lemma classes_focusTerminal term w :
  classes (Rev2.focusTerminal term w)
  = alter focus_f term (unmaximize <$> classes w).
Proof.
  unfold Rev2.focusTerminal, classList_add, classList_remove.
  rewrite !classes_classList_update, classes_unmaximize_all.
  apply list_eq. intros j. destruct (decide (j = term)) as [->|Hne].
  - rewrite !list_lookup_alter_eq.
    by destruct ((unmaximize <$> classes w) !! term).
  - by rewrite !list_lookup_alter_ne.
Qed.

End class_view.

(** ** The second revision, on class lists *)

Section rev2_classes.
Implicit Types (w : World) (e : Element) (s : gset string) (i j term : nat).

Lemma classes_refreshTitleState term w :
  classes (Rev2.refreshTitleState term w) = classes w.
Proof.
  unfold Rev2.refreshTitleState.
  destruct (document w !! term) as [e|]; [|done].
  destruct (title e); [|done].
  unfold classes. simpl.
  erewrite list_fmap_alter with (h := λ s, s).
  - by apply list_alter_id.
  - by apply Forall_forall.
Qed.

Lemma classes_forEach_refresh (l : list nat) w :
  classes (forEach l Rev2.refreshTitleState w) = classes w.
Proof.
  unfold forEach. revert w.
  induction l as [|a l IH]; intros w; simpl; [done|].
  by rewrite IH, classes_refreshTitleState.
Qed.

Lemma classes_deliver_mutations w :
  classes (Rev2.deliver_mutations w) = classes w.
Proof. unfold Rev2.deliver_mutations. by rewrite classes_forEach_refresh. Qed.

Lemma classes_scrollAdjusted vp term force w :
  classes (Rev2.scrollAdjusted vp term force w) = classes w.
Proof. reflexivity. Qed.

Lemma classes_revalidate vp term o h fits force w :
  classes (Rev2.revalidate vp term o h fits force w) = classes w.
Proof.
  unfold Rev2.revalidate.
  repeat (case_bool_decide || destruct (_ || _)); reflexivity.
Qed.

Lemma classes_replaceState url w :
  classes (try_catch (history_replaceState url w)
             (λ _, console_error "History API not supported or blocked." w))
  = classes w.
Proof. unfold history_replaceState. by destruct (historyBlocked w). Qed.

(** [openFocusScroll] never throws, and acts on the class lists as
    [focusTerminal] does. *)
Lemma openFocusScroll_normal vp id force w :
  ∃ w', Rev2.openFocusScroll vp id force w = normal w' ∧
        classes w' = match getElementById id w with
                     | Some term => alter focus_f term (unmaximize <$> classes w)
                     | None => classes w
                     end.
Proof.
  unfold Rev2.openFocusScroll.
  destruct (getElementById id w) as [term|]; [|by eexists].
  eexists. split; [reflexivity|].
  rewrite classes_replaceState.
  destruct (_ || _); by rewrite ?classes_scrollAdjusted, classes_focusTerminal.
Qed.

Lemma classes_red term w :
  classes (classList_remove ["minimized"; "maxwide"] term
             (classList_toggle "closed" term w))
  = alter red_f term (classes w).
Proof.
  unfold classList_remove, classList_toggle.
  rewrite !classes_classList_update.
  apply list_eq. intros j. destruct (decide (j = term)) as [->|Hne].
  - rewrite !list_lookup_alter_eq. by destruct (classes w !! term).
  - by rewrite !list_lookup_alter_ne.
Qed.

Lemma classes_yellow term w :
  classes (classList_remove ["closed"; "maxwide"] term
             (classList_toggle "minimized" term w))
  = alter yellow_f term (classes w).
Proof.
  unfold classList_remove, classList_toggle.
  rewrite !classes_classList_update.
  apply list_eq. intros j. destruct (decide (j = term)) as [->|Hne].
  - rewrite !list_lookup_alter_eq. by destruct (classes w !! term).
  - by rewrite !list_lookup_alter_ne.
Qed.

(** The class lists after the green branch, before the scroll. *)
Lemma classes_green term w :
  let wasMaximized := classList_contains "maxwide" term w in
  let w1 := forEach (querySelectorAll (matches ["terminal"; "maxwide"]) w)
                    (classList_remove ["maxwide"]) w in
  let w2 := classList_remove ["closed"; "minimized"] term w1 in
  classes (if negb wasMaximized then classList_add "maxwide" term w2 else w2)
  = alter (green_f wasMaximized) term (unmaximize <$> classes w).
Proof.
  intros was w1 w2. subst w2 w1. unfold green_f.
  destruct was; simpl; unfold classList_add, classList_remove;
    rewrite !classes_classList_update, classes_unmaximize_all; [done|].
  apply list_eq. intros j. destruct (decide (j = term)) as [->|Hne].
  - rewrite !list_lookup_alter_eq.
    by destruct ((unmaximize <$> classes w) !! term).
  - by rewrite !list_lookup_alter_ne.
Qed.

Lemma closest_terminal_Some el w term :
  Rev2.closest ["terminal"] el w = Some term →
  el = Some term ∧
  ∃ e, document w !! term = Some e ∧ "terminal" ∈ classList e.
Proof.
  unfold Rev2.closest. destruct el as [i|]; [|done].
  destruct (document w !! i) as [e|] eqn:He; [|done].
  change (from_option (matches ["terminal"]) false (Some e))
    with (matches ["terminal"] e).
  destruct (matches ["terminal"] e) eqn:Hm; [|done].
  intros [= ->]. split; [done|]. exists e. split; [done|].
  unfold matches, has_class in Hm. simpl in Hm.
  apply andb_prop in Hm as [Hm _]. by apply bool_decide_eq_true in Hm.
Qed.

Lemma class_step_document_click vp ev w :
  class_step (classes w) (classes (Rev2.document_click vp ev w)).
Proof.
  unfold Rev2.document_click.
  destruct (Rev2.closest_dot ev) as [btn|]; [|constructor].
  destruct (Rev2.closest _ _ _) as [term|] eqn:Hterm; [|constructor].
  apply closest_terminal_Some in Hterm as (_ & e & He & Ht).
  rewrite classes_refreshTitleState.
  repeat case_bool_decide.
  - rewrite classes_red. constructor.
  - rewrite classes_yellow. constructor.
  - pose proof (classes_green term w) as Hg. cbv zeta in Hg.
    assert (classList_contains "maxwide" term w
            = bool_decide ("maxwide" ∈ classList e)) as Hwas.
    { unfold classList_contains. by rewrite He. }
    assert (classes w !! term = Some (classList e)) as Hs.
    { by rewrite classes_lookup, He. }
    destruct (classList_contains "maxwide" term w); cbn [negb] in *.
    + rewrite Hg, Hwas. by apply cs_green.
    + assert (∀ w', classes (if scrollAdjustedHook w'
                             then Rev2.scrollAdjusted vp term true w'
                             else issue (scrollIntoView term) w')
                    = classes w') as Hscroll.
      { intros w'. by destruct (scrollAdjustedHook w'). }
      rewrite Hscroll, Hg, Hwas. by apply cs_green.
  - constructor.
Qed.

Lemma class_step_step w ev :
  class_step (classes w) (classes (Rev2.step w ev)).
Proof.
  unfold Rev2.step. rewrite classes_deliver_mutations.
  destruct ev as [vp [e|href|id force|t]]; simpl.
  - apply class_step_document_click.
  - destruct (openFocusScroll_normal vp (slice1 href) true w) as (w' & -> & Hc).
    simpl. rewrite Hc. destruct (getElementById _ _); constructor.
  - destruct (openFocusScroll_normal vp id force w) as (w' & -> & Hc).
    simpl. rewrite Hc. destruct (getElementById _ _); constructor.
  - destruct t as [term o h fits f|hash]; simpl.
    + rewrite classes_revalidate. constructor.
    + destruct (openFocusScroll_normal vp hash true w) as (w' & -> & Hc).
      simpl. rewrite Hc. destruct (getElementById _ _); constructor.
Qed.

End rev2_classes.

(** ** Invariants of [class_step] *)

Section class_invariants.
Implicit Types (l : list (gset string)) (s : gset string) (i j : nat).

Lemma unmaximize_spec s c :
  c ∈ unmaximize s ↔ c ∈ s ∧ ¬ (c = "maxwide" ∧ "terminal" ∈ s).
Proof. unfold unmaximize. case_bool_decide; set_solver. Qed.

Lemma red_f_spec s c :
  c ∈ red_f s ↔
  (c = "closed" ∧ c ∉ s) ∨
  (c ≠ "closed" ∧ c ≠ "minimized" ∧ c ≠ "maxwide" ∧ c ∈ s).
Proof. unfold red_f, toggle. repeat case_decide; set_solver. Qed.

Lemma yellow_f_spec s c :
  c ∈ yellow_f s ↔
  (c = "minimized" ∧ c ∉ s) ∨
  (c ≠ "closed" ∧ c ≠ "minimized" ∧ c ≠ "maxwide" ∧ c ∈ s).
Proof. unfold yellow_f, toggle. repeat case_decide; set_solver. Qed.

Lemma green_f_spec b s c :
  c ∈ green_f b s ↔
  (c = "maxwide" ∧ (b = false ∨ c ∈ s)) ∨
  (c ≠ "closed" ∧ c ≠ "minimized" ∧ c ≠ "maxwide" ∧ c ∈ s).
Proof.
  unfold green_f. destruct b; set_unfold.
  - destruct (decide (c = "maxwide")); naive_solver.
  - destruct (decide (c = "maxwide")); naive_solver.
Qed.

Lemma focus_f_spec s c :
  c ∈ focus_f s ↔
  c ≠ "closed" ∧ c ≠ "minimized" ∧ (c = "maxwide" ∨ c ∈ s).
Proof. unfold focus_f. set_solver. Qed.

Lemma lookup_alter_Some (f : gset string → gset string) l i j s' :
  alter f i l !! j = Some s' →
  ∃ s, l !! j = Some s ∧ s' = if decide (i = j) then f s else s.
Proof.
  rewrite list_lookup_alter. case_decide as Hij; [subst j|by eauto].
  destruct (l !! i) as [s|]; [|done]. intros [= <-]. eauto.
Qed.

Lemma lookup_alter_fmap_Some (f g : gset string → gset string) l i j s' :
  alter f i (g <$> l) !! j = Some s' →
  ∃ s, l !! j = Some s ∧ s' = if decide (i = j) then f (g s) else g s.
Proof.
  intros (s1 & Hs1 & ->)%lookup_alter_Some.
  rewrite list_lookup_fmap in Hs1.
  destruct (l !! j) as [s|]; [|done]. injection Hs1 as <-. eauto.
Qed.

(** Every handler keeps the class [terminal] where it is. *)
Lemma class_step_terminal l l' :
  class_step l l' →
  ∀ j s', l' !! j = Some s' →
    ∃ s, l !! j = Some s ∧ ("terminal" ∈ s' ↔ "terminal" ∈ s).
Proof.
  destruct 1 as [|i|i|i s0 Hs0 Ht|i]; intros j s' Hj.
  - eauto.
  - apply lookup_alter_Some in Hj as (s & Hs & ->). exists s. split; [done|].
    case_decide; [|done]. rewrite red_f_spec. naive_solver.
  - apply lookup_alter_Some in Hj as (s & Hs & ->). exists s. split; [done|].
    case_decide; [|done]. rewrite yellow_f_spec. naive_solver.
  - apply lookup_alter_fmap_Some in Hj as (s & Hs & ->). exists s.
    split; [done|]. case_decide.
    + rewrite green_f_spec, unmaximize_spec. naive_solver.
    + rewrite unmaximize_spec. naive_solver.
  - apply lookup_alter_fmap_Some in Hj as (s & Hs & ->). exists s.
    split; [done|]. case_decide.
    + rewrite focus_f_spec, unmaximize_spec. naive_solver.
    + rewrite unmaximize_spec. naive_solver.
Qed.

(** After green or focus, only the target can be a maximized panel. *)
Lemma one_maximized_alter_unmaximize f l i :
  one_maximized (alter f i (unmaximize <$> l)).
Proof.
  assert (∀ j s', alter f i (unmaximize <$> l) !! j = Some s' →
                  "terminal" ∈ s' → "maxwide" ∈ s' → j = i) as Hone.
  { intros j s' (s & Hs & ->)%lookup_alter_fmap_Some Ht Hm.
    case_decide; [done|]. apply unmaximize_spec in Ht, Hm. naive_solver. }
  intros j k sj sk Hj Hk ????.
  rewrite (Hone j sj), (Hone k sk); done.
Qed.

Lemma one_maximized_step l l' :
  class_step l l' → one_maximized l → one_maximized l'.
Proof.
  destruct 1 as [|i|i|i s0 Hs0 Ht|i]; intros Hl;
    [done| | |apply one_maximized_alter_unmaximize..].
  - intros j k sj sk (s1 & H1 & ->)%lookup_alter_Some
                     (s2 & H2 & ->)%lookup_alter_Some.
    repeat case_decide; rewrite ?red_f_spec; naive_solver.
  - intros j k sj sk (s1 & H1 & ->)%lookup_alter_Some
                     (s2 & H2 & ->)%lookup_alter_Some.
    repeat case_decide; rewrite ?yellow_f_spec; naive_solver.
Qed.

Lemma exclusive_red_f s : exclusive (red_f s).
Proof. unfold exclusive. rewrite !red_f_spec. naive_solver. Qed.

Lemma exclusive_yellow_f s : exclusive (yellow_f s).
Proof. unfold exclusive. rewrite !yellow_f_spec. naive_solver. Qed.

Lemma exclusive_green_f b s : exclusive (green_f b s).
Proof. unfold exclusive. rewrite !green_f_spec. naive_solver. Qed.

Lemma exclusive_focus_f s : exclusive (focus_f s).
Proof. unfold exclusive. rewrite !focus_f_spec. naive_solver. Qed.

Lemma exclusive_unmaximize s : exclusive s → exclusive (unmaximize s).
Proof. unfold exclusive. rewrite !unmaximize_spec. naive_solver. Qed.

Lemma panels_exclusive_step l l' :
  class_step l l' → panels_exclusive l → panels_exclusive l'.
Proof.
  intros Hstep Hl j s' Hj Ht.
  destruct (class_step_terminal _ _ Hstep j s' Hj) as (s & Hs & Hts).
  assert (exclusive s) as Hex by (apply (Hl j); tauto).
  destruct Hstep as [|i|i|i s0 Hs0 Ht0|i].
  - congruence.
  - apply lookup_alter_Some in Hj as (s1 & ? & ->).
    case_decide; [apply exclusive_red_f|congruence].
  - apply lookup_alter_Some in Hj as (s1 & ? & ->).
    case_decide; [apply exclusive_yellow_f|congruence].
  - apply lookup_alter_fmap_Some in Hj as (s1 & ? & ->).
    case_decide; [apply exclusive_green_f|].
    apply exclusive_unmaximize. congruence.
  - apply lookup_alter_fmap_Some in Hj as (s1 & ? & ->).
    case_decide; [apply exclusive_focus_f|].
    apply exclusive_unmaximize. congruence.
Qed.

End class_invariants.

(** ** From class lists back to the document *)

Section world_view.
Implicit Types (w : World) (e : Element) (s : gset string) (i j term : nat).

Lemma elem_of_maximized_panels w i :
  i ∈ maximized_panels w ↔
  ∃ s, classes w !! i = Some s ∧ "terminal" ∈ s ∧ "maxwide" ∈ s.
Proof.
  unfold maximized_panels. rewrite elem_of_querySelectorAll.
  unfold is_panel, maximized, has_class. split.
  - intros (e & He & [Ht Hm]%andb_prop).
    apply bool_decide_eq_true in Ht, Hm.
    exists (classList e). by rewrite classes_lookup, He.
  - intros (s & Hs & Ht & Hm). rewrite classes_lookup in Hs.
    destruct (document w !! i) as [e|]; [|done]. injection Hs as <-.
    exists e. split; [done|]. by rewrite !bool_decide_true.
Qed.

Lemma NoDup_maximized_panels w : NoDup (maximized_panels w).
Proof.
  unfold maximized_panels, querySelectorAll.
  apply list.NoDup_filter, NoDup_seq.
Qed.

Lemma at_most_one_maximized_classes w :
  at_most_one_maximized w ↔ one_maximized (classes w).
Proof.
  unfold at_most_one_maximized. split.
  - intros Hlen i j si sj Hi Hj ????.
    assert (i ∈ maximized_panels w) as Hil
      by (apply elem_of_maximized_panels; eauto).
    assert (j ∈ maximized_panels w) as Hjl
      by (apply elem_of_maximized_panels; eauto).
    destruct (maximized_panels w) as [|a [|b l]]; simpl in Hlen; [|..|lia].
    + by apply elem_of_nil in Hil.
    + apply list_elem_of_singleton in Hil, Hjl. congruence.
  - intros Hone. pose proof (NoDup_maximized_panels w) as Hnd.
    destruct (maximized_panels w) as [|a [|b l]] eqn:Hl; simpl; [lia..|].
    assert (a ∈ maximized_panels w) as Ha by (rewrite Hl; set_solver).
    assert (b ∈ maximized_panels w) as Hb by (rewrite Hl; set_solver).
    apply elem_of_maximized_panels in Ha as (sa & ? & ? & ?).
    apply elem_of_maximized_panels in Hb as (sb & ? & ? & ?).
    assert (a = b) as -> by (by apply (Hone a b sa sb)).
    inversion Hnd as [|?? Hnotin _]; subst. set_solver.
Qed.

Lemma flags_exclusive_classes e :
  flags_exclusive e = true ↔ exclusive (classList e).
Proof.
  unfold flags_exclusive, exclusive, closed, minimized, maximized, has_class.
  repeat case_bool_decide; simpl; naive_solver.
Qed.

Lemma all_exclusive_classes w :
  all_exclusive w ↔ panels_exclusive (classes w).
Proof.
  unfold all_exclusive, panels_exclusive. rewrite Forall_lookup.
  unfold is_panel, has_class. split.
  - intros Hall i s Hs Ht. rewrite classes_lookup in Hs.
    destruct (document w !! i) as [e|] eqn:He; [|done]. injection Hs as <-.
    apply flags_exclusive_classes, (Hall i); [done|].
    by apply bool_decide_eq_true.
  - intros Hall i e He Ht. apply bool_decide_eq_true in Ht.
    apply flags_exclusive_classes, (Hall i); [|done].
    by rewrite classes_lookup, He.
Qed.

(** Both invariants survive every turn of the event loop. *)
Lemma at_most_one_maximized_step w ev :
  at_most_one_maximized w → at_most_one_maximized (Rev2.step w ev).
Proof.
  rewrite !at_most_one_maximized_classes.
  apply one_maximized_step, class_step_step.
Qed.

Lemma at_most_one_maximized_run evs w :
  at_most_one_maximized w → at_most_one_maximized (Rev2.run evs w).
Proof.
  unfold Rev2.run. revert w.
  induction evs as [|ev evs IH]; intros w Hw; simpl; [done|].
  by apply IH, at_most_one_maximized_step.
Qed.

Lemma all_exclusive_step w ev :
  all_exclusive w → all_exclusive (Rev2.step w ev).
Proof.
  rewrite !all_exclusive_classes.
  apply panels_exclusive_step, class_step_step.
Qed.

Lemma all_exclusive_run evs w :
  all_exclusive w → all_exclusive (Rev2.run evs w).
Proof.
  unfold Rev2.run. revert w.
  induction evs as [|ev evs IH]; intros w Hw; simpl; [done|].
  by apply IH, all_exclusive_step.
Qed.

End world_view.

(** ** The first revision does what the second does *)

Section revisions.
Implicit Types (w : World) (vp : Viewport) (term : nat).

Lemma Rev1_refreshTitleState term w :
  Rev1.refreshTitleState term w = Rev2.refreshTitleState term w.
Proof. reflexivity. Qed.

Lemma Rev1_focusTerminal term w :
  Rev1.focusTerminal term w = Rev2.focusTerminal term w.
Proof. reflexivity. Qed.

Lemma Rev1_scrollAdjusted vp term force w :
  Rev1.scrollAdjusted vp term force w = Rev2.scrollAdjusted vp term force w.
Proof. reflexivity. Qed.

Lemma Rev1_revalidate vp term o h fits force w :
  Rev1.revalidate vp term o h fits force w
  = Rev2.revalidate vp term o h fits force w.
Proof. reflexivity. Qed.

Lemma Rev1_openFocusScroll vp id force w :
  Rev1.openFocusScroll vp id force w = Rev2.openFocusScroll vp id force w.
Proof. reflexivity. Qed.

Lemma Rev1_deliver_mutations w :
  Rev1.deliver_mutations w = Rev2.deliver_mutations w.
Proof. reflexivity. Qed.

Lemma Rev1_button_click vp b term w :
  Rev1.button_click vp b term w
  = Rev2.document_click vp (Rev2.mkMouseEvent (Some (dot_of b)) (Some term)) w.
Proof.
  unfold Rev1.button_click, Rev2.document_click, Rev2.closest. simpl.
  destruct (from_option (matches ["terminal"]) false (document w !! term));
    [|done].
  destruct b; simpl.
  - by rewrite (bool_decide_true ("red" ∈ _)) by set_solver.
  - rewrite (bool_decide_false ("red" ∈ _)) by set_solver.
    by rewrite (bool_decide_true ("yellow" ∈ _)) by set_solver.
  - rewrite (bool_decide_false ("red" ∈ _)) by set_solver.
    rewrite (bool_decide_false ("yellow" ∈ _)) by set_solver.
    by rewrite (bool_decide_true ("green" ∈ _)) by set_solver.
Qed.

Lemma Rev1_step w vp ev :
  Rev1.step w (vp, ev) = Rev2.step w (vp, as_rev2 ev).
Proof.
  unfold Rev1.step, Rev2.step. simpl. rewrite Rev1_deliver_mutations.
  destruct ev as [b term|href|id force|[]]; simpl; try reflexivity.
  by rewrite Rev1_button_click.
Qed.

Lemma Rev1_run evs w :
  Rev1.run evs w = Rev2.run (prod_map (λ vp, vp) as_rev2 <$> evs) w.
Proof.
  unfold Rev1.run, Rev2.run. revert w.
  induction evs as [|[vp ev] evs IH]; intros w; simpl; [done|].
  by rewrite IH, Rev1_step.
Qed.

End revisions.

(** ** Titles follow the classes *)

Section titles.
Implicit Types (w : World) (e : Element) (s : gset string) (i j term : nat).

Lemma set_document_id w : set_document (document w) w = w.
Proof. by destruct w. Qed.

Lemma refreshTitleState_alter term w :
  Rev2.refreshTitleState term w
  = set_document (alter refreshed term (document w)) w.
Proof.
  unfold Rev2.refreshTitleState.
  destruct (document w !! term) as [e|] eqn:He.
  - destruct (title e) as [t|] eqn:Ht.
    + f_equal. apply list_eq. intros j.
      destruct (decide (j = term)) as [->|Hne].
      * rewrite !list_lookup_alter_eq, He. simpl. unfold refreshed.
        by rewrite Ht.
      * by rewrite !list_lookup_alter_ne.
    + rewrite <- (set_document_id w) at 1. f_equal.
      apply list_eq. intros j.
      destruct (decide (j = term)) as [->|Hne].
      * rewrite list_lookup_alter_eq, He. simpl. unfold refreshed.
        by rewrite Ht.
      * by rewrite list_lookup_alter_ne.
  - rewrite <- (set_document_id w) at 1. f_equal.
    apply list_eq. intros j.
    destruct (decide (j = term)) as [->|Hne].
    + by rewrite list_lookup_alter_eq, He.
    + by rewrite list_lookup_alter_ne.
Qed.











End titles.

Section settling.
Implicit Types (w : World) (e : Element) (i j term : nat).

Lemma lookup_foldl_alter {A} (f : A → A) (l : list nat) (d : list A) j :
  (∀ x, f (f x) = f x) →
  foldl (λ d i, alter f i d) d l !! j
  = (if bool_decide (j ∈ l) then f else λ x, x) <$> d !! j.
Proof.
  intros Hidem. revert d.
  induction l as [|a l IH]; intros d; simpl.
  - by destruct (d !! j).
  - rewrite IH. destruct (decide (j = a)) as [->|Hne].
    + rewrite list_lookup_alter_eq, (bool_decide_true (a ∈ a :: l)) by set_solver.
      destruct (d !! a) as [x|]; simpl; [|done].
      case_bool_decide; by rewrite ?Hidem.
    + rewrite list_lookup_alter_ne by done.
      destruct (d !! j) as [x|]; simpl; [|done].
      f_equal. rewrite (bool_decide_ext (j ∈ a :: l) (j ∈ l)); set_solver.
Qed.

Lemma refreshed_idem e : refreshed (refreshed e) = refreshed e.
Proof. unfold refreshed. by destruct (title e) eqn:Ht; simpl; rewrite ?Ht. Qed.

Lemma forEach_refresh (l : list nat) w :
  forEach l Rev2.refreshTitleState w
  = set_document (foldl (λ d i, alter refreshed i d) (document w) l) w.
Proof.
  unfold forEach. revert w.
  induction l as [|a l IH]; intros w; simpl.
  - by rewrite set_document_id.
  - by rewrite IH, refreshTitleState_alter.
Qed.





(** The loop that installs the observers. *)
Lemma controls_init_loop (l : list nat) w :
  let w' := forEach l (λ term w, Rev2.refreshTitleState term (observe term w)) w in
  document w' = foldl (λ d i, alter refreshed i d) (document w) l ∧
  observers w' = observers w ++ l ∧
  records w' = records w.
Proof.
  unfold forEach. revert w.
  induction l as [|a l IH]; intros w; simpl.
  - by rewrite app_nil_r.
  - destruct (IH (Rev2.refreshTitleState a (observe a w))) as (Hd & Ho & Hr).
    rewrite Hd, Ho, Hr, !refreshTitleState_alter. simpl.
    by rewrite <- app_assoc.
Qed.





End settling.

(** ** What a click on a coloured dot does, exactly *)

Section clicks.
Implicit Types (w : World) (e : Element) (s : gset string) (i j term : nat).

Lemma closest_terminal_panel term w e :
  document w !! term = Some e → is_panel e = true →
  Rev2.closest ["terminal"] (Some term) w = Some term.
Proof.
  intros He Hp. unfold Rev2.closest. rewrite He. simpl.
  unfold is_panel in Hp. by rewrite Hp.
Qed.

Lemma classes_document_click vp btn term w e :
  document w !! term = Some e → is_panel e = true →
  classes (Rev2.document_click vp (Rev2.mkMouseEvent (Some btn) (Some term)) w)
  = if bool_decide ("red" ∈ btn) then alter red_f term (classes w)
    else if bool_decide ("yellow" ∈ btn) then alter yellow_f term (classes w)
    else if bool_decide ("green" ∈ btn)
         then alter (green_f (maximized e)) term (unmaximize <$> classes w)
         else classes w.
Proof.
  intros He Hp. unfold Rev2.document_click. cbn [Rev2.closest_dot Rev2.closest_terminal].
  rewrite (closest_terminal_panel term w e He Hp), classes_refreshTitleState.
  repeat case_bool_decide; [apply classes_red|apply classes_yellow| |done].
  pose proof (classes_green term w) as Hg. cbv zeta in Hg.
  assert (classList_contains "maxwide" term w = maximized e) as Hwas.
  { unfold classList_contains. by rewrite He. }
  rewrite <- Hwas, <- Hg.
  destruct (classList_contains "maxwide" term w); cbn [negb]; [done|].
  by destruct (scrollAdjustedHook _).
Qed.

Lemma classes_lookup_Some w i s :
  classes w !! i = Some s ↔ ∃ e, document w !! i = Some e ∧ classList e = s.
Proof.
  rewrite classes_lookup. destruct (document w !! i) as [e|]; simpl.
  - split; [intros [= <-]; eauto|]. by intros (e' & [= <-] & <-).
  - split; [done|]. by intros (e' & ? & _).
Qed.

(** Whatever the state before, the panel whose coloured dot was clicked
    has at most one flag set afterwards. *)
Lemma document_click_target_exclusive vp btn term w e :
  document w !! term = Some e → is_panel e = true →
  "red" ∈ btn ∨ "yellow" ∈ btn ∨ "green" ∈ btn →
  ∃ e', document (Rev2.document_click vp
                    (Rev2.mkMouseEvent (Some btn) (Some term)) w) !! term
        = Some e' ∧ is_panel e' = true ∧ flags_exclusive e' = true.
Proof.
  intros He Hp Hbtn.
  pose proof (classes_document_click vp btn term w e He Hp) as Hc.
  set (w' := Rev2.document_click _ _ _) in *.
  assert (classes w !! term = Some (classList e)) as Hs
    by (apply classes_lookup_Some; eauto).
  assert (∃ s', classes w' !! term = Some s' ∧ "terminal" ∈ s' ∧ exclusive s')
    as (s' & Hs' & Ht' & Hex').
  { unfold is_panel, has_class in Hp. apply bool_decide_eq_true in Hp.
    rewrite Hc. repeat case_bool_decide; [| | |naive_solver].
    - exists (red_f (classList e)).
      rewrite list_lookup_alter_eq, Hs. split; [done|].
      split; [|apply exclusive_red_f]. rewrite red_f_spec. naive_solver.
    - exists (yellow_f (classList e)).
      rewrite list_lookup_alter_eq, Hs. split; [done|].
      split; [|apply exclusive_yellow_f]. rewrite yellow_f_spec. naive_solver.
    - exists (green_f (maximized e) (unmaximize (classList e))).
      rewrite list_lookup_alter_eq, list_lookup_fmap, Hs. split; [done|].
      split; [|apply exclusive_green_f].
      rewrite green_f_spec, unmaximize_spec. naive_solver. }
  apply classes_lookup_Some in Hs' as (e' & He' & <-).
  exists e'. split; [done|]. split.
  - unfold is_panel, has_class. by apply bool_decide_eq_true.
  - by apply flags_exclusive_classes.
Qed.

End clicks.

(** ** [focusTerminal] on the document *)

Section focus.
Implicit Types (w : World) (e : Element) (s : gset string) (i j term : nat).

Lemma document_forEach_update f (l : list nat) w :
  document (forEach l (classList_update f) w)
  = foldl (λ d i, alter (with_classList f) i d) (document w) l.
Proof.
  unfold forEach. revert w.
  induction l as [|a l IH]; intros w; simpl; [done|]. by rewrite IH.
Qed.

Lemma with_classList_ext f g e :
  f (classList e) = g (classList e) → with_classList f e = with_classList g e.
Proof. unfold with_classList. by intros ->. Qed.

Lemma document_unmaximize_all w :
  document (forEach (querySelectorAll (matches ["terminal"; "maxwide"]) w)
                    (classList_remove ["maxwide"]) w)
  = with_classList unmaximize <$> document w.
Proof.
  unfold classList_remove. rewrite document_forEach_update.
  apply list_eq. intros j.
  rewrite lookup_foldl_alter, list_lookup_fmap.
  2:{ intros e. unfold with_classList. simpl. f_equal. set_solver. }
  destruct (document w !! j) as [e|] eqn:He; simpl; [|done].
  f_equal. unfold unmaximize. case_bool_decide as Hin.
  - apply elem_of_querySelectorAll in Hin as (e' & He' & Hsel).
    assert (e' = e) as -> by congruence.
    unfold matches, has_class in Hsel. simpl in Hsel.
    apply andb_prop in Hsel as [Ht _]. apply bool_decide_eq_true in Ht.
    apply with_classList_ext. rewrite bool_decide_true by done. set_solver.
  - destruct e as [id cl at' ti]. unfold with_classList. simpl in *.
    f_equal. case_bool_decide as Ht; [|done].
    assert ("maxwide" ∉ cl) as Hm.
    { intros Hm. apply Hin, elem_of_querySelectorAll. eexists. split; [done|].
      unfold matches, has_class. simpl. by rewrite !bool_decide_true. }
    set_solver.
Qed.

Lemma document_focusTerminal term w :
  document (Rev2.focusTerminal term w)
  = alter (with_classList focus_f) term (with_classList unmaximize <$> document w).
Proof.
  unfold Rev2.focusTerminal, classList_add, classList_remove.
  unfold classList_update at 1 2. simpl. rewrite document_unmaximize_all.
  apply list_eq. intros j. destruct (decide (j = term)) as [->|Hne].
  - rewrite !list_lookup_alter_eq.
    by destruct ((with_classList unmaximize <$> document w) !! term).
  - by rewrite !list_lookup_alter_ne.
Qed.

Lemma focus_f_unmaximize_idem s :
  focus_f (unmaximize (focus_f (unmaximize s))) = focus_f (unmaximize s).
Proof.
  apply set_eq. intros c.
  rewrite !focus_f_spec, !unmaximize_spec, !focus_f_spec, !unmaximize_spec.
  naive_solver.
Qed.

Lemma unmaximize_idem s : unmaximize (unmaximize s) = unmaximize s.
Proof.
  apply set_eq. intros c. rewrite !unmaximize_spec. naive_solver.
Qed.

(** Focusing the same element again changes nothing in the document. *)
Lemma document_focusTerminal_idem term w w' :
  document w' = document (Rev2.focusTerminal term w) →
  document (Rev2.focusTerminal term w') = document w'.
Proof.
  intros Hw'. rewrite document_focusTerminal, Hw', document_focusTerminal.
  apply list_eq. intros j. rewrite !list_lookup_alter.
  case_decide as Hj.
  - rewrite list_lookup_fmap, list_lookup_alter_eq, list_lookup_fmap.
    destruct (document w !! term) as [e|]; simpl; [|done].
    f_equal. unfold with_classList. simpl. f_equal.
    apply focus_f_unmaximize_idem.
  - rewrite list_lookup_fmap, list_lookup_alter_ne, list_lookup_fmap by done.
    destruct (document w !! j) as [e|]; simpl; [|done].
    f_equal. unfold with_classList. simpl. f_equal. apply unmaximize_idem.
Qed.

Lemma find_id_Some id k d n :
  find_id id k d = Some n → ∃ e, d !! (n - k) = Some e ∧ el_id e = id ∧ k ≤ n.
Proof.
  revert k. induction d as [|e d IH]; intros k; simpl; [done|].
  case_bool_decide as Hid.
  - intros [= <-]. exists e. rewrite Nat.sub_diag. done.
  - intros (e' & He' & Hid' & Hle)%IH. exists e'.
    replace (n - k) with (S (n - S k)) by lia. simpl. split; [done|].
    split; [done|lia].
Qed.

Lemma getElementById_Some id w term :
  getElementById id w = Some term →
  ∃ e, document w !! term = Some e ∧ el_id e = id ∧ id ≠ "".
Proof.
  unfold getElementById. case_bool_decide as Hid; [done|].
  intros (e & He & Heid & _)%find_id_Some.
  rewrite Nat.sub_0_r in He. eauto.
Qed.

Lemma document_replaceState url w :
  document (try_catch (history_replaceState url w)
              (λ _, console_error "History API not supported or blocked." w))
  = document w.
Proof. unfold history_replaceState. by destruct (historyBlocked w). Qed.

Lemma document_openFocusScroll vp id force w term :
  getElementById id w = Some term →
  ∃ w', Rev2.openFocusScroll vp id force w = normal w' ∧
        document w' = document (Rev2.focusTerminal term w).
Proof.
  intros Hid. unfold Rev2.openFocusScroll. rewrite Hid.
  eexists. split; [reflexivity|].
  rewrite document_replaceState. by destruct (_ || _).
Qed.

(** The flags of the elements after [focusTerminal]. *)
Lemma focusTerminal_flags term w e :
  document w !! term = Some e →
  (∃ e', document (Rev2.focusTerminal term w) !! term = Some e' ∧
         closed e' = false ∧ minimized e' = false ∧ maximized e' = true) ∧
  (∀ j e', j ≠ term → document (Rev2.focusTerminal term w) !! j = Some e' →
           is_panel e' = true → maximized e' = false).
Proof.
  intros He. rewrite document_focusTerminal. split.
  - rewrite list_lookup_alter_eq, list_lookup_fmap, He. simpl.
    eexists. split; [reflexivity|].
    unfold closed, minimized, maximized, has_class. simpl.
    rewrite !bool_decide_eq_false, bool_decide_eq_true, !focus_f_spec.
    naive_solver.
  - intros j e' Hne. rewrite list_lookup_alter_ne, list_lookup_fmap by done.
    destruct (document w !! j) as [ej|]; simpl; [|done]. intros [= <-].
    unfold is_panel, maximized, has_class. simpl.
    rewrite bool_decide_eq_false, bool_decide_eq_true, !unmaximize_spec.
    naive_solver.
Qed.

End focus.

(** ** The red dot on the document *)

Section red.
Implicit Types (w : World) (e : Element) (s : gset string) (i j term : nat).

Lemma document_red_click vp btn term w e :
  document w !! term = Some e → is_panel e = true → "red" ∈ btn →
  document (Rev2.document_click vp (Rev2.mkMouseEvent (Some btn) (Some term)) w)
  = alter (λ e, refreshed (with_classList red_f e)) term (document w).
Proof.
  intros He Hp Hred. unfold Rev2.document_click.
  cbn [Rev2.closest_dot Rev2.closest_terminal].
  rewrite (closest_terminal_panel term w e He Hp).
  rewrite bool_decide_true by done.
  rewrite refreshTitleState_alter. simpl.
  apply list_eq. intros j. destruct (decide (j = term)) as [->|Hne].
  - rewrite !list_lookup_alter_eq. by destruct (document w !! term).
  - by rewrite !list_lookup_alter_ne.
Qed.

Lemma classList_refreshed e : classList (refreshed e) = classList e.
Proof. unfold refreshed. by destruct (title e). Qed.

End red.

(** ** What [focusTerminal] leaves alone *)

Section frames.
Implicit Types (w : World) (e : Element) (i j term : nat).

Lemma forEach_update_frame f (l : list nat) w :
  ∃ d r, forEach l (classList_update f) w = set_records r (set_document d w).
Proof.
  unfold forEach. revert w.
  induction l as [|a l IH]; intros w; simpl.
  - exists (document w), (records w). by destruct w.
  - destruct (IH (classList_update f a w)) as (d & r & ->). by exists d, r.
Qed.

Lemma focusTerminal_frame term w :
  ∃ d r, Rev2.focusTerminal term w = set_records r (set_document d w).
Proof.
  unfold Rev2.focusTerminal, classList_add, classList_remove.
  destruct (forEach_update_frame (λ s, s ∖ list_to_set ["maxwide"])
              (querySelectorAll (matches ["terminal"; "maxwide"]) w) w)
    as (d & r & ->).
  by eexists _, _.
Qed.

End frames.

(** ** The navigation globals do not matter to [focusTerminal] *)

Section globals.
Implicit Types (w : World) (e : Element) (i j term : nat).




End globals.

(** ** Loading the page *)

Section loading.
Implicit Types (w : World) (e : Element) (i j term : nat).

(** The controls script changes titles and observers, nothing else. *)
Lemma controls_init_frame w :
  ∃ d o, Rev2.controls_init w = set_observers o (set_document d w).
Proof.
  unfold Rev2.controls_init, forEach.
  generalize (querySelectorAll (matches ["terminal"]) w). intros l.
  assert (∀ w0, ∃ d o,
            foldl (λ w i, Rev2.refreshTitleState i (observe i w)) w0 l
            = set_observers o (set_document d w0)) as Hloop.
  { induction l as [|a l IH]; intros w0; simpl.
    - exists (document w0), (observers w0). by destruct w0.
    - destruct (IH (Rev2.refreshTitleState a (observe a w0))) as (d & o & ->).
      rewrite refreshTitleState_alter. by exists d, o. }
  apply Hloop.
Qed.

Lemma deliver_mutations_frame w :
  ∃ d, Rev2.deliver_mutations w = set_records [] (set_document d w).
Proof.
  unfold Rev2.deliver_mutations. rewrite forEach_refresh. by eexists.
Qed.

(** With no fragment in the URL, loading the second revision schedules
    [openFocusScroll('about', true)] after 100 ms, and nothing else. *)
Lemma Rev2_load_timers w :
  location_hash w = "" →
  timers (Rev2.load w) = timers w ++ [(100%Z, openInitialHash "about")].
Proof.
  intros Hhash. unfold Rev2.load.
  destruct (deliver_mutations_frame (Rev2.nav_init (Rev2.controls_init w)))
    as (d & ->).
  destruct (controls_init_frame w) as (d' & o & ->).
  unfold Rev2.nav_init. simpl. by rewrite Hhash.
Qed.

(** The first revision schedules nothing in that case. *)
Lemma Rev1_load_timers w :
  location_hash w = "" → timers (Rev1.load w) = timers w.
Proof.
  intros Hhash. unfold Rev1.load. rewrite Rev1_deliver_mutations.
  destruct (deliver_mutations_frame (Rev1.nav_init (Rev1.controls_init w)))
    as (d & ->).
  change (Rev1.controls_init w) with (Rev2.controls_init w).
  destruct (controls_init_frame w) as (d' & o & ->).
  unfold Rev1.nav_init. simpl. by rewrite Hhash.
Qed.

End loading.

(* ================================================================== *)
(** * The properties of the specification *)
(* ================================================================== *)

(** ** Mutual exclusion of the maximized state *)

(** C1.  Starting from a document in which no panel is maximized, after
    every operation of every sequence of operations at most one panel is
    maximized.  The sequences range over all events a revision handles,
    the green button and [openFocusScroll] (which runs [focusTerminal])
    among them; [take n evs] is the sequence up to its [n]-th
    operation.  Both revisions. *)
Theorem C1_mutual_exclusion (w : World) :
  maximized_panels w = [] →
  (∀ evs n, at_most_one_maximized (Rev2.run (take n evs) w)) ∧
  (∀ evs n, at_most_one_maximized (Rev1.run (take n evs) w)).
Proof.
  intros Hnone.
  assert (at_most_one_maximized w) as Hw.
  { unfold at_most_one_maximized. rewrite Hnone. simpl. lia. }
  split; intros evs n.
  - by apply at_most_one_maximized_run.
  - rewrite Rev1_run. by apply at_most_one_maximized_run.
Qed.

Lemma C1_mutual_exclusion_witness :
  maximized_panels (Rev2.load (page cv "" false)) = [] ∧
  at_most_one_maximized
    (Rev2.run [(desktop, Rev2.click (dot "green" 1));
               (desktop, Rev2.call_openFocusScroll "skills" false);
               (desktop, Rev2.click (dot "green" 2))]
              (Rev2.load (page cv "" false))).
Proof.
  split; [by vm_compute|].
  apply (proj1 (C1_mutual_exclusion (Rev2.load (page cv "" false))
                  ltac:(by vm_compute))
           [(desktop, Rev2.click (dot "green" 1));
            (desktop, Rev2.call_openFocusScroll "skills" false);
            (desktop, Rev2.click (dot "green" 2))] 3).
Defined.

(** ** Exclusivity of the three flags of a panel *)

(** C2.  A toggle is a click on a red, yellow or green dot.  (1) If every
    panel has at most one flag set, so it is after every sequence of
    events, in both revisions.  (2) Whatever the state before, the panel
    whose red, yellow or green dot is clicked has at most one flag set
    afterwards: the flag just set is the only one. *)
Theorem C2_flag_exclusivity :
  (∀ w, all_exclusive w →
     (∀ evs, all_exclusive (Rev2.run evs w)) ∧
     (∀ evs, all_exclusive (Rev1.run evs w))) ∧
  (∀ vp btn term w e,
     document w !! term = Some e → is_panel e = true →
     "red" ∈ btn ∨ "yellow" ∈ btn ∨ "green" ∈ btn →
     ∃ e', document (Rev2.document_click vp
                       (Rev2.mkMouseEvent (Some btn) (Some term)) w) !! term
           = Some e' ∧ flags_exclusive e' = true) ∧
  (∀ vp b term w e,
     document w !! term = Some e → is_panel e = true →
     ∃ e', document (Rev1.button_click vp b term w) !! term = Some e' ∧
           flags_exclusive e' = true).
Proof.
  split; [|split].
  - intros w Hw. split; intros evs.
    + by apply all_exclusive_run.
    + rewrite Rev1_run. by apply all_exclusive_run.
  - intros vp btn term w e He Hp Hbtn.
    destruct (document_click_target_exclusive vp btn term w e He Hp Hbtn)
      as (e' & He' & _ & Hex). eauto.
  - intros vp b term w e He Hp. rewrite Rev1_button_click.
    destruct (document_click_target_exclusive vp (dot_of b) term w e He Hp)
      as (e' & He' & _ & Hex); [|by eauto].
    destruct b; set_solver.
Qed.

Lemma C2_flag_exclusivity_witness :
  all_exclusive
    (Rev2.run [(desktop, Rev2.click (dot "red" 1));
               (desktop, Rev2.click (dot "green" 1));
               (desktop, Rev2.click (dot "yellow" 1))]
              (Rev2.load (page cv "" false))) ∧
  ∃ e', document (Rev2.document_click desktop (dot "green" 1)
                    (page [panel "a" ["closed"; "minimized"] []; 
                           panel "b" ["closed"; "minimized"] []] "" false)) !! 1
        = Some e' ∧ flags_exclusive e' = true.
Proof.
  split.
  - apply (proj1 (proj1 C2_flag_exclusivity (Rev2.load (page cv "" false))
                    ltac:(compute_done))).
  - apply (proj1 (proj2 C2_flag_exclusivity) desktop {["dot"; "green"]} 1
             (page [panel "a" ["closed"; "minimized"] []; 
                    panel "b" ["closed"; "minimized"] []] "" false)
             (panel "b" ["closed"; "minimized"] [])) .
    + reflexivity.
    + by vm_compute.
    + right. right. compute_done.
Defined.

(** ** setMaximizedExclusive *)

(** C3.  [focusTerminal] is the script's setMaximizedExclusive, reached
    through [openFocusScroll].  For every state and every id that
    [getElementById] resolves, to the element [term]: the call returns
    normally, in both revisions; afterwards [term] is not closed, not
    minimized and maximized, and no other panel is maximized, whatever
    the state before; and applying [focusTerminal] to [term] once more
    leaves the document as it is. *)
Theorem C3_setMaximizedExclusive vp id force w term :
  getElementById id w = Some term →
  ∃ w' e',
    Rev2.openFocusScroll vp id force w = normal w' ∧
    Rev1.openFocusScroll vp id force w = normal w' ∧
    document w' = document (Rev2.focusTerminal term w) ∧
    document w' = document (Rev1.focusTerminal term w) ∧
    document w' !! term = Some e' ∧
    closed e' = false ∧ minimized e' = false ∧ maximized e' = true ∧
    (∀ j e, j ≠ term → document w' !! j = Some e →
            is_panel e = true → maximized e = false) ∧
    document (Rev2.focusTerminal term w') = document w'.
Proof.
  intros Hid.
  destruct (getElementById_Some id w term Hid) as (e & He & _ & _).
  destruct (document_openFocusScroll vp id force w term Hid) as (w' & Hw' & Hd).
  destruct (focusTerminal_flags term w e He) as [(e' & He' & Hc & Hm & Hx) Hother].
  pose proof (document_focusTerminal_idem term w w' Hd) as Hidem.
  rewrite <- Hd in He', Hother.
  exists w', e'. repeat split; done.
Qed.

Lemma C3_setMaximizedExclusive_witness :
  ∃ w' e',
    Rev2.openFocusScroll desktop "education" true
      (page [panel "about" ["maxwide"] []; panel "education" ["closed"] [];
             panel "skills" ["minimized"] []] "" false) = normal w' ∧
    document w' !! 1 = Some e' ∧
    closed e' = false ∧ minimized e' = false ∧ maximized e' = true ∧
    (∀ j e, j ≠ 1 → document w' !! j = Some e →
            is_panel e = true → maximized e = false).
Proof.
  destruct (C3_setMaximizedExclusive desktop "education" true
              (page [panel "about" ["maxwide"] []; panel "education" ["closed"] [];
                     panel "skills" ["minimized"] []] "" false) 1
              ltac:(by vm_compute))
    as (w' & e' & H2 & _ & _ & _ & He' & Hc & Hm & Hx & Hothers & _).
  exists w', e'. repeat split; done.
Defined.

(** ** The scroll target *)

Section scroll_target.
Local Open Scope Qc_scope.





End scroll_target.


(** ** toggleClosed *)

(** C5.  A click on the red dot of a panel, in either revision, flips the
    panel's [closed]; afterwards the panel is neither minimized nor
    maximized, in particular when it has become closed; every other
    element of the document is left as it was; and when the panel had at
    most one flag set before, as every panel has in every state the
    handlers can reach from such states (C2), and [closed] has become
    false, its [minimized] and [maximized] are what they were. *)
Theorem C5_toggleClosed vp btn term w e :
  document w !! term = Some e → is_panel e = true → "red" ∈ btn →
  let w2 := Rev2.document_click vp (Rev2.mkMouseEvent (Some btn) (Some term)) w in
  let w1 := Rev1.button_click vp Rev1.red term w in
  ∃ e',
    document w2 !! term = Some e' ∧ document w1 !! term = Some e' ∧
    closed e' = negb (closed e) ∧
    (closed e' = true → minimized e' = false ∧ maximized e' = false) ∧
    (flags_exclusive e = true → closed e' = false →
     minimized e' = minimized e ∧ maximized e' = maximized e) ∧
    (minimized e' = false ∧ maximized e' = false) ∧
    (∀ j, j ≠ term → document w2 !! j = document w !! j ∧
                     document w1 !! j = document w !! j).
Proof.
  intros He Hp Hred w2 w1.
  assert (document w2 = alter (λ e, refreshed (with_classList red_f e)) term
                              (document w)) as H2.
  { by apply (document_red_click vp btn term w e). }
  assert (document w1 = alter (λ e, refreshed (with_classList red_f e)) term
                              (document w)) as H1.
  { subst w1. rewrite Rev1_button_click.
    apply (document_red_click vp _ term w e); [done..|]. set_solver. }
  exists (refreshed (with_classList red_f e)).
  rewrite H1, H2, list_lookup_alter_eq, He. simpl.
  split; [done|]. split; [done|].
  assert (∀ c, has_class c (refreshed (with_classList red_f e))
               = bool_decide (c ∈ red_f (classList e))) as Hc.
  { intros c. unfold has_class. by rewrite classList_refreshed. }
  unfold flags_exclusive, closed, minimized, maximized. rewrite !Hc.
  unfold has_class.
  split; [|split; [|split; [|split]]].
  - destruct (bool_decide ("closed" ∈ classList e)) eqn:Hcl; simpl.
    + apply bool_decide_eq_true in Hcl. apply bool_decide_eq_false.
      rewrite red_f_spec. naive_solver.
    + apply bool_decide_eq_false in Hcl. apply bool_decide_eq_true.
      rewrite red_f_spec. naive_solver.
  - intros _. rewrite !bool_decide_eq_false, !red_f_spec. naive_solver.
  - intros Hex Hcl.
    assert ("minimized" ∉ red_f (classList e)) as Hm
      by (rewrite red_f_spec; naive_solver).
    assert ("maxwide" ∉ red_f (classList e)) as Hx
      by (rewrite red_f_spec; naive_solver).
    rewrite (bool_decide_false _ Hm), (bool_decide_false _ Hx).
    apply bool_decide_eq_false in Hcl. rewrite red_f_spec in Hcl.
    assert ("closed" ∈ classList e) as Hwas.
    { destruct (decide ("closed" ∈ classList e)); naive_solver. }
    rewrite (bool_decide_true _ Hwas) in Hex. simpl in Hex.
    destruct (bool_decide ("minimized" ∈ classList e)),
             (bool_decide ("maxwide" ∈ classList e)); done.
  - rewrite !bool_decide_eq_false, !red_f_spec. naive_solver.
  - intros j Hne. by rewrite !list_lookup_alter_ne.
Qed.

Lemma C5_toggleClosed_witness :
  ∃ e',
    document (Rev2.document_click desktop (dot "red" 1)
                (page [panel "about" [] []; panel "education" ["closed"] []]
                      "" false)) !! 1 = Some e' ∧
    closed e' = false ∧ minimized e' = false ∧ maximized e' = false.
Proof.
  destruct (C5_toggleClosed desktop {["dot"; "red"]} 1
              (page [panel "about" [] []; panel "education" ["closed"] []]
                    "" false)
              (panel "education" ["closed"] [])
              eq_refl ltac:(by vm_compute) ltac:(compute_done))
    as (e' & He' & _ & Hcl & _ & Hkeep & _ & _).
  exists e'. split; [exact He'|].
  assert (closed e' = false) as Hc by (rewrite Hcl; by vm_compute).
  destruct (Hkeep ltac:(by vm_compute) Hc) as [-> ->].
  split; [done|]. split; by vm_compute.
Defined.

(** ** Unknown ids *)



(** An id that resolves to an element that is not a panel is not unknown
    to [openFocusScroll]: the element is focused like a terminal, and any
    maximized panel is restored.  Here the id of the index. *)
Remark openFocusScroll_non_panel_element :
  let w := page [ {| el_id := "sections"; classList := {["index"]};
                     attributes := ∅; title := None |};
                  panel "about" ["maxwide"] [] ] "" false in
  ∃ w',
    Rev2.openFocusScroll desktop "sections" false w = normal w' ∧
    maximized_panels w = [1] ∧ maximized_panels w' = [] ∧
    location_hash w' = "#sections".
Proof.
  intros w. eexists. split; [reflexivity|]. split; [by vm_compute|].
  split; by vm_compute.
Qed.

(** ** Re-validation *)

Section revalidation.
Local Open Scope Qc_scope.


End revalidation.

(** ** The default fragment *)

(** C8.  When the page is loaded without a URL fragment, the second
    revision schedules, 100 ms later, [openFocusScroll('about', true)]:
    'about' is the designated default panel.  When that call runs and
    'about' resolves to an element, the call returns normally, the
    element is maximized (not closed, not minimized), no other panel is
    maximized, a smooth scroll to it is issued, and the URL fragment
    becomes '#about' unless the history API is blocked. *)
Theorem C8_default_fragment w :
  location_hash w = "" →
  timers (Rev2.load w) = timers w ++ [(100%Z, openInitialHash "about")] ∧
  ∀ vp w' term,
    getElementById "about" w' = Some term →
    ∃ w'' e' target,
      Rev2.run_task vp (openInitialHash "about") w' = normal w'' ∧
      Rev2.openFocusScroll vp "about" true w' = normal w'' ∧
      document w'' !! term = Some e' ∧
      closed e' = false ∧ minimized e' = false ∧ maximized e' = true ∧
      (∀ j e, j ≠ term → document w'' !! j = Some e →
              is_panel e = true → maximized e = false) ∧
      scrollTo target smooth ∈ calls w'' ∧
      (historyBlocked w' = false → location_hash w'' = "#about").
Proof.
  intros Hhash. split; [by apply Rev2_load_timers|].
  intros vp w' term Hid.
  destruct (getElementById_Some "about" w' term Hid) as (e & He & _ & _).
  destruct (document_openFocusScroll vp "about" true w' term Hid)
    as (w'' & Hopen & Hd).
  destruct (focusTerminal_flags term w' e He)
    as [(e' & He' & Hc & Hm & Hx) Hothers].
  rewrite <- Hd in He', Hothers.
  pose proof Hopen as Hw''.
  unfold Rev2.openFocusScroll in Hw''. rewrite Hid in Hw''.
  cbn [orb] in Hw''. injection Hw'' as Hw''.
  destruct (focusTerminal_frame term w') as (d & r & Hframe).
  rewrite Hframe in Hw''. unfold history_replaceState in Hw''. simpl in Hw''.
  exists w'', e'. eexists.
  split; [exact Hopen|]. split; [exact Hopen|].
  do 5 (split; [done|]).
  rewrite <- Hw''. destruct (historyBlocked w'); simpl.
  - split; [|done]. apply elem_of_app. right. constructor.
  - split; [|done]. apply elem_of_app. left.
    apply elem_of_app. right. constructor.
Qed.

Lemma C8_default_fragment_witness :
  timers (Rev2.load (page cv "" false)) = [(100%Z, openInitialHash "about")] ∧
  ∃ w'' e',
    Rev2.run_task desktop (openInitialHash "about") (Rev2.load (page cv "" false))
      = normal w'' ∧
    document w'' !! 1 = Some e' ∧ maximized e' = true ∧
    location_hash w'' = "#about".
Proof.
  destruct (C8_default_fragment (page cv "" false) eq_refl) as [Htimers Hrun].
  split; [exact Htimers|].
  destruct (Hrun desktop (Rev2.load (page cv "" false)) 1 ltac:(by vm_compute))
    as (w'' & e' & target & Htask & _ & He' & _ & _ & Hx & _ & _ & Hhash).
  exists w'', e'. repeat split; try done. by apply Hhash.
Defined.

(** ** The title-state label *)



(** ** The two revisions *)


(** Without [forceAdjust] the scroll does depend on the global: on a page
    whose 'about' panel carries no [data-adjust-scroll], the first
    revision scrolls to it and the second does not.  Every call in the
    scripts themselves passes [forceAdjust = true]. *)
Remark openFocusScroll_scroll_depends_on_ids :
  let w := page [panel "about" [] []] "" false in
  ∃ w1 w2,
    Rev1.openFocusScroll desktop "about" false (Rev1.load w) = normal w1 ∧
    Rev2.openFocusScroll desktop "about" false (Rev2.load w) = normal w2 ∧
    calls w1 = [scrollTo (px 770) smooth; replaceState "#about"] ∧
    calls w2 = [replaceState "#about"] ∧
    (classList <$> document w1) = (classList <$> document w2).
Proof.
  intros w. eexists _, _. split; [reflexivity|]. split; [reflexivity|].
  split; [by vm_compute|]. split; by vm_compute.
Qed.

(* ================================================================== *)
(** * The yellow and green dots *)
(* ================================================================== *)

Section dots.
Implicit Types (w : World) (e : Element) (s : gset string) (i j term : nat).

Lemma document_yellow_click vp btn term w e :
  document w !! term = Some e → is_panel e = true →
  "red" ∉ btn → "yellow" ∈ btn →
  document (Rev2.document_click vp (Rev2.mkMouseEvent (Some btn) (Some term)) w)
  = alter (λ e, refreshed (with_classList yellow_f e)) term (document w).
Proof.
  intros He Hp Hred Hyellow. unfold Rev2.document_click.
  cbn [Rev2.closest_dot Rev2.closest_terminal].
  rewrite (closest_terminal_panel term w e He Hp).
  rewrite bool_decide_false, bool_decide_true by done.
  rewrite refreshTitleState_alter. simpl.
  apply list_eq. intros j. destruct (decide (j = term)) as [->|Hne].
  - rewrite !list_lookup_alter_eq. by destruct (document w !! term).
  - by rewrite !list_lookup_alter_ne.
Qed.

(** A handler that only updates class lists and titles issues no call
    and schedules nothing. *)
Lemma toggle_click_quiet vp btn term w :
  "red" ∈ btn ∨ "yellow" ∈ btn →
  let w' := Rev2.document_click vp (Rev2.mkMouseEvent (Some btn) (Some term)) w in
  calls w' = calls w ∧ timers w' = timers w ∧
  location_hash w' = location_hash w ∧ console w' = console w.
Proof.
  intros Hbtn. unfold Rev2.document_click.
  cbn [Rev2.closest_dot Rev2.closest_terminal].
  destruct (Rev2.closest ["terminal"] (Some term) w) as [t|]; [|done].
  rewrite refreshTitleState_alter.
  case_bool_decide; [done|].
  rewrite bool_decide_true by naive_solver. done.
Qed.

Lemma has_class_refreshed c e : has_class c (refreshed e) = has_class c e.
Proof. unfold has_class. by rewrite classList_refreshed. Qed.

End dots.

(** X1.  A click on the yellow dot of a panel, in either revision, flips the
    panel's [minimized] and leaves it neither closed nor maximized; no
    other element changes, nothing is scrolled and no timer is set. *)
Theorem X1_yellow_click vp btn term w e :
  document w !! term = Some e → is_panel e = true →
  "red" ∉ btn → "yellow" ∈ btn →
  let w2 := Rev2.document_click vp (Rev2.mkMouseEvent (Some btn) (Some term)) w in
  let w1 := Rev1.button_click vp Rev1.yellow term w in
  ∃ e',
    document w2 !! term = Some e' ∧ document w1 !! term = Some e' ∧
    minimized e' = negb (minimized e) ∧
    closed e' = false ∧ maximized e' = false ∧
    is_panel e' = true ∧ el_id e' = el_id e ∧
    (∀ j, j ≠ term → document w2 !! j = document w !! j ∧
                     document w1 !! j = document w !! j) ∧
    calls w2 = calls w ∧ timers w2 = timers w ∧
    calls w1 = calls w ∧ timers w1 = timers w.
Proof.
  intros He Hp Hred Hyellow w2 w1.
  assert (w1 = Rev2.document_click vp
                 (Rev2.mkMouseEvent (Some (dot_of Rev1.yellow)) (Some term)) w)
    as H1 by apply Rev1_button_click.
  assert (document w2 = alter (λ e, refreshed (with_classList yellow_f e)) term
                              (document w)) as Hd2.
  { by apply (document_yellow_click vp btn term w e). }
  assert (document w1 = alter (λ e, refreshed (with_classList yellow_f e)) term
                              (document w)) as Hd1.
  { rewrite H1. apply (document_yellow_click vp _ term w e); [done..| |];
      simpl; set_solver. }
  destruct (toggle_click_quiet vp btn term w ltac:(by right))
    as (Hc2 & Ht2 & _).
  destruct (toggle_click_quiet vp (dot_of Rev1.yellow) term w
              ltac:(right; simpl; set_solver)) as (Hc1 & Ht1 & _).
  rewrite <- H1 in Hc1, Ht1.
  exists (refreshed (with_classList yellow_f e)).
  rewrite Hd1, Hd2, list_lookup_alter_eq, He. simpl.
  split; [done|]. split; [done|].
  unfold closed, minimized, maximized, is_panel in *.
  rewrite !has_class_refreshed. unfold has_class in *. simpl.
  apply bool_decide_eq_true in Hp.
  split; [|split; [|split; [|split; [|split; [|split]]]]].
  - destruct (bool_decide ("minimized" ∈ classList e)) eqn:Hm; simpl.
    + apply bool_decide_eq_true in Hm. apply bool_decide_eq_false.
      rewrite yellow_f_spec. naive_solver.
    + apply bool_decide_eq_false in Hm. apply bool_decide_eq_true.
      rewrite yellow_f_spec. naive_solver.
  - rewrite bool_decide_eq_false, yellow_f_spec. naive_solver.
  - rewrite bool_decide_eq_false, yellow_f_spec. naive_solver.
  - rewrite bool_decide_eq_true, yellow_f_spec. naive_solver.
  - unfold refreshed. by destruct (title _).
  - intros j Hne. by rewrite !list_lookup_alter_ne.
  - done.
Qed.

Lemma X1_yellow_click_witness :
  ∃ e',
    document (Rev2.document_click desktop (dot "yellow" 1)
                (page [panel "about" [] []; panel "education" ["maxwide"] []]
                      "" false)) !! 1 = Some e' ∧
    minimized e' = true ∧ closed e' = false ∧ maximized e' = false.
Proof.
  destruct (X1_yellow_click desktop {["dot"; "yellow"]} 1
              (page [panel "about" [] []; panel "education" ["maxwide"] []]
                    "" false)
              (panel "education" ["maxwide"] [])
              eq_refl ltac:(by vm_compute) ltac:(compute_done)
              ltac:(compute_done))
    as (e' & He' & _ & Hm & Hc & Hx & _).
  exists e'. split; [exact He'|].
  split; [rewrite Hm; by vm_compute|done].
Defined.

Section green.
Implicit Types (w : World) (e : Element) (s : gset string) (i j term : nat).

(** What a click on the green dot leaves alone, and what it issues. *)
Lemma green_click_calls vp btn term w e :
  document w !! term = Some e → is_panel e = true →
  "red" ∉ btn → "yellow" ∉ btn → "green" ∈ btn →
  let w' := Rev2.document_click vp (Rev2.mkMouseEvent (Some btn) (Some term)) w in
  location_hash w' = location_hash w ∧ console w' = console w ∧
  calls w' = calls w ++
    (if maximized e then []
     else if scrollAdjustedHook w
          then drop (length (calls w)) (calls (Rev2.scrollAdjusted vp term true w))
          else [scrollIntoView term]) ∧
  timers w' = timers w ++
    (if maximized e then []
     else if scrollAdjustedHook w
          then drop (length (timers w)) (timers (Rev2.scrollAdjusted vp term true w))
          else []).
Proof.
  intros He Hp Hred Hyellow Hgreen. unfold Rev2.document_click.
  cbn [Rev2.closest_dot Rev2.closest_terminal].
  rewrite (closest_terminal_panel term w e He Hp).
  rewrite !bool_decide_false, bool_decide_true by done.
  rewrite refreshTitleState_alter.
  assert (classList_contains "maxwide" term w = maximized e) as ->.
  { unfold classList_contains. by rewrite He. }
  unfold classList_add, classList_remove.
  destruct (forEach_update_frame (λ s, s ∖ list_to_set ["maxwide"])
              (querySelectorAll (matches ["terminal"; "maxwide"]) w) w)
    as (d & r & ->).
  destruct (maximized e); cbn [negb]; simpl.
  - by rewrite !app_nil_r.
  - destruct (scrollAdjustedHook w); simpl.
    + rewrite !drop_app_length. repeat split; reflexivity.
    + by rewrite app_nil_r.
Qed.

Lemma lookup_green_click vp btn term w e j :
  document w !! term = Some e → is_panel e = true →
  "red" ∉ btn → "yellow" ∉ btn → "green" ∈ btn →
  classes (Rev2.document_click vp
             (Rev2.mkMouseEvent (Some btn) (Some term)) w) !! j
  = (if decide (term = j)
     then λ s, green_f (maximized e) (unmaximize s)
     else unmaximize) <$> classes w !! j.
Proof.
  intros He Hp Hred Hyellow Hgreen.
  rewrite (classes_document_click vp btn term w e He Hp).
  rewrite !bool_decide_false, bool_decide_true by done.
  destruct (decide (term = j)) as [->|Hne].
  - rewrite list_lookup_alter_eq, list_lookup_fmap.
    by destruct (classes w !! j).
  - by rewrite list_lookup_alter_ne, list_lookup_fmap.
Qed.

Lemma green_click_flags vp btn term w e :
  document w !! term = Some e → is_panel e = true →
  "red" ∉ btn → "yellow" ∉ btn → "green" ∈ btn →
  let w' := Rev2.document_click vp (Rev2.mkMouseEvent (Some btn) (Some term)) w in
  (∃ e', document w' !! term = Some e' ∧ is_panel e' = true ∧
         closed e' = false ∧ minimized e' = false ∧
         maximized e' = negb (maximized e)) ∧
  (∀ j e', j ≠ term → document w' !! j = Some e' →
           is_panel e' = true → maximized e' = false).
Proof.
  intros He Hp Hred Hyellow Hgreen w'.
  pose proof (λ j, lookup_green_click vp btn term w e j He Hp Hred Hyellow Hgreen)
    as Hlook. fold w' in Hlook.
  split.
  - pose proof (Hlook term) as Ht.
    rewrite decide_True, (classes_lookup w), He in Ht by done. simpl in Ht.
    apply classes_lookup_Some in Ht as (e' & He' & Hcl).
    exists e'. split; [done|].
    unfold is_panel, closed, minimized, maximized, has_class in *.
    rewrite Hcl. apply bool_decide_eq_true in Hp.
    split; [|split; [|split]].
    + rewrite bool_decide_eq_true, green_f_spec, unmaximize_spec. naive_solver.
    + rewrite bool_decide_eq_false, green_f_spec. naive_solver.
    + rewrite bool_decide_eq_false, green_f_spec. naive_solver.
    + destruct (bool_decide ("maxwide" ∈ classList e)) eqn:Hm; cbn [negb].
      * rewrite bool_decide_eq_false, green_f_spec, unmaximize_spec.
        naive_solver.
      * rewrite bool_decide_eq_true, green_f_spec. naive_solver.
  - intros j e' Hne He' Hp'.
    pose proof (Hlook j) as Hj. rewrite decide_False in Hj by done.
    assert (classes w' !! j = Some (classList e')) as Hc
      by (apply classes_lookup_Some; eauto).
    rewrite Hc in Hj. destruct (classes w !! j) as [s|]; [|done].
    simpl in Hj. injection Hj as Hj.
    unfold is_panel, maximized, has_class in *.
    apply bool_decide_eq_true in Hp'. apply bool_decide_eq_false.
    rewrite Hj in *. rewrite unmaximize_spec in *. naive_solver.
Qed.

End green.

(** X2.  A click on the green dot of a panel that is not maximized maximizes
    it: afterwards it is maximized and neither closed nor minimized, and
    no other panel is maximized.  The page is scrolled to it: by
    [scrollAdjusted(term, true)] when the navigation script has exposed
    it (one smooth [scrollTo] and the re-validation timer), by
    [scrollIntoView] otherwise.  The URL fragment is not touched. *)
Theorem X2_green_maximizes vp btn term w e :
  document w !! term = Some e → is_panel e = true → maximized e = false →
  "red" ∉ btn → "yellow" ∉ btn → "green" ∈ btn →
  let w' := Rev2.document_click vp (Rev2.mkMouseEvent (Some btn) (Some term)) w in
  (∃ e', document w' !! term = Some e' ∧
         closed e' = false ∧ minimized e' = false ∧ maximized e' = true) ∧
  maximized_panels w' = [term] ∧
  location_hash w' = location_hash w ∧
  (scrollAdjustedHook w = true →
   ∃ target task,
     calls w' = calls w ++ [scrollTo target smooth] ∧
     timers w' = timers w ++ [(450%Z, task)]) ∧
  (scrollAdjustedHook w = false →
   calls w' = calls w ++ [scrollIntoView term] ∧ timers w' = timers w).
Proof.
  intros He Hp Hmax Hred Hyellow Hgreen w'.
  destruct (green_click_flags vp btn term w e He Hp Hred Hyellow Hgreen)
    as ((e' & He' & Hp' & Hc' & Hm' & Hx') & Hothers).
  destruct (green_click_calls vp btn term w e He Hp Hred Hyellow Hgreen)
    as (Hhash & _ & Hcalls & Htimers).
  fold w' in He', Hothers, Hhash, Hcalls, Htimers.
  rewrite Hmax in Hx', Hcalls, Htimers. simpl in Hx'.
  split; [by exists e'|]. split; [|split; [done|split]].
  - assert (∀ j, j ∈ maximized_panels w' ↔ j = term) as Hiff.
    { intros j. unfold maximized_panels. rewrite elem_of_querySelectorAll.
      split.
      - intros (e'' & He'' & [Hp'' Hx'']%andb_true_iff).
        destruct (decide (j = term)) as [|Hne]; [done|].
        by rewrite (Hothers j e'' Hne He'' Hp'') in Hx''.
      - intros ->. exists e'. by rewrite Hp', Hx'. }
    pose proof (NoDup_maximized_panels w') as Hnd.
    destruct (maximized_panels w') as [|a [|b l]].
    + by pose proof (proj2 (Hiff term) eq_refl) as ?%elem_of_nil.
    + f_equal. apply Hiff. by left.
    + assert (a = term) as -> by (apply Hiff; by left).
      assert (b = term) as -> by (apply Hiff; right; by left).
      inversion Hnd as [|?? Hnot _]. destruct Hnot. by left.
  - intros Hhook. rewrite Hhook in Hcalls, Htimers.
    eexists _, _. rewrite Hcalls, Htimers. simpl.
    by rewrite !drop_app_length.
  - intros Hhook. rewrite Hhook in Hcalls, Htimers.
    rewrite app_nil_r in Htimers. by split.
Qed.

Lemma X2_green_maximizes_witness :
  maximized_panels
    (Rev2.document_click desktop (dot "green" 2)
       (page [panel "about" ["maxwide"] []; panel "education" [] [];
              panel "skills" ["minimized"] []] "" false)) = [2] ∧
  calls
    (Rev2.document_click desktop (dot "green" 2)
       (page [panel "about" ["maxwide"] []; panel "education" [] [];
              panel "skills" ["minimized"] []] "" false)) = [scrollIntoView 2].
Proof.
  destruct (X2_green_maximizes desktop {["dot"; "green"]} 2
              (page [panel "about" ["maxwide"] []; panel "education" [] [];
                     panel "skills" ["minimized"] []] "" false)
              (panel "skills" ["minimized"] [])
              eq_refl ltac:(by vm_compute) ltac:(by vm_compute)
              ltac:(compute_done) ltac:(compute_done) ltac:(compute_done))
    as (_ & Hmax & _ & _ & Hcalls).
  split; [exact Hmax|exact (proj1 (Hcalls eq_refl))].
Defined.

(** X3.  A click on the green dot of the maximized panel restores it: it ends
    with none of the three flags set, no panel is maximized any more,
    and nothing is scrolled or scheduled. *)
Theorem X3_green_restores vp btn term w e :
  document w !! term = Some e → is_panel e = true → maximized e = true →
  "red" ∉ btn → "yellow" ∉ btn → "green" ∈ btn →
  let w' := Rev2.document_click vp (Rev2.mkMouseEvent (Some btn) (Some term)) w in
  (∃ e', document w' !! term = Some e' ∧
         closed e' = false ∧ minimized e' = false ∧ maximized e' = false) ∧
  maximized_panels w' = [] ∧
  calls w' = calls w ∧ timers w' = timers w ∧
  location_hash w' = location_hash w.
Proof.
  intros He Hp Hmax Hred Hyellow Hgreen w'.
  destruct (green_click_flags vp btn term w e He Hp Hred Hyellow Hgreen)
    as ((e' & He' & Hp' & Hc' & Hm' & Hx') & Hothers).
  destruct (green_click_calls vp btn term w e He Hp Hred Hyellow Hgreen)
    as (Hhash & _ & Hcalls & Htimers).
  fold w' in He', Hothers, Hhash, Hcalls, Htimers.
  rewrite Hmax in Hx', Hcalls, Htimers. simpl in Hx'.
  rewrite app_nil_r in Hcalls, Htimers.
  split; [by exists e'|]. split; [|done].
  destruct (maximized_panels w') as [|a l] eqn:Hl; [done|].
  assert (a ∈ maximized_panels w') as Ha by (rewrite Hl; by left).
  unfold maximized_panels in Ha.
  apply elem_of_querySelectorAll in Ha
    as (e'' & He'' & [Hp'' Hx'']%andb_true_iff).
  destruct (decide (a = term)) as [->|Hne].
  - rewrite He' in He''. injection He'' as <-. by rewrite Hx' in Hx''.
  - by rewrite (Hothers a e'' Hne He'' Hp'') in Hx''.
Qed.

Lemma X3_green_restores_witness :
  maximized_panels
    (Rev2.document_click desktop (dot "green" 0)
       (page [panel "about" ["maxwide"] []; panel "education" [] []]
             "" false)) = [] ∧
  calls
    (Rev2.document_click desktop (dot "green" 0)
       (page [panel "about" ["maxwide"] []; panel "education" [] []]
             "" false)) = [].
Proof.
  destruct (X3_green_restores desktop {["dot"; "green"]} 0
              (page [panel "about" ["maxwide"] []; panel "education" [] []]
                    "" false)
              (panel "about" ["maxwide"] [])
              eq_refl ltac:(by vm_compute) ltac:(by vm_compute)
              ltac:(compute_done) ltac:(compute_done) ltac:(compute_done))
    as (_ & Hmax & Hcalls & _).
  split; [exact Hmax|exact Hcalls].
Defined.

(* ================================================================== *)
(** * What [openFocusScroll] issues *)
(* ================================================================== *)

Section navigation.
Implicit Types (w : World) (e : Element) (i j term : nat).

Lemma openFocusScroll_effects vp id force w term :
  getElementById id w = Some term →
  let shouldAdjust := force || bool_decide (id ∈ IDs_TO_ADJUST_SCROLL w) in
  ∃ w' target task,
    Rev2.openFocusScroll vp id force w = normal w' ∧
    document w' = document (Rev2.focusTerminal term w) ∧
    calls w' = calls w
               ++ (if shouldAdjust then [scrollTo target smooth] else [])
               ++ (if historyBlocked w then []
                   else [replaceState ("#" +:+ id)]) ∧
    timers w' = timers w ++ (if shouldAdjust then [(450%Z, task)] else []) ∧
    location_hash w'
    = (if historyBlocked w then location_hash w else "#" +:+ id) ∧
    console w'
    = console w ++ (if historyBlocked w
                    then ["History API not supported or blocked."] else []).
Proof.
  intros Hid shouldAdjust. unfold Rev2.openFocusScroll. rewrite Hid.
  destruct (focusTerminal_frame term w) as (d & r & Hf). rewrite Hf.
  cbn [IDs_TO_ADJUST_SCROLL set_records set_document]. fold shouldAdjust.
  unfold history_replaceState.
  destruct shouldAdjust; simpl; destruct (historyBlocked w); simpl;
    [eexists _, _, _|eexists _, _, _
    |eexists _, (px 0), (revalidation 0 (px 0) (px 0) false false)
    |eexists _, (px 0), (revalidation 0 (px 0) (px 0) false false)];
    (split; [reflexivity|]); simpl; rewrite ?app_nil_r, <- ?app_assoc;
    repeat split; reflexivity.
Qed.

End navigation.

(** X4.  Where [history.replaceState] throws, [openFocusScroll] still
    returns normally: the panel is focused and the scroll issued as
    usual, the URL fragment stays what it was, no [replaceState] is
    recorded, and one message is written to the console. *)
Theorem X4_history_blocked vp id force w term :
  getElementById id w = Some term → historyBlocked w = true →
  ∃ w' target,
    Rev2.openFocusScroll vp id force w = normal w' ∧
    Rev1.openFocusScroll vp id force w = normal w' ∧
    document w' = document (Rev2.focusTerminal term w) ∧
    location_hash w' = location_hash w ∧
    console w' = console w ++ ["History API not supported or blocked."] ∧
    calls w' = calls w ++
      (if force || bool_decide (id ∈ IDs_TO_ADJUST_SCROLL w)
       then [scrollTo target smooth] else []).
Proof.
  intros Hid Hblocked.
  destruct (openFocusScroll_effects vp id force w term Hid)
    as (w' & target & task & Hrun & Hdoc & Hcalls & _ & Hhash & Hconsole).
  rewrite Hblocked in Hcalls, Hhash, Hconsole.
  rewrite app_nil_r in Hcalls.
  exists w', target. split; [done|].
  split; [by rewrite <- Hrun; apply Rev1_openFocusScroll|done].
Qed.

Lemma X4_history_blocked_witness :
  ∃ w',
    Rev2.openFocusScroll desktop "education" true (page cv "#about" true)
    = normal w' ∧
    location_hash w' = "#about" ∧
    console w' = ["History API not supported or blocked."].
Proof.
  destruct (X4_history_blocked desktop "education" true
              (page cv "#about" true) 2 eq_refl eq_refl)
    as (w' & target & Hrun & _ & _ & Hhash & Hconsole & _).
  exists w'. split; [exact Hrun|]. split; [exact Hhash|exact Hconsole].
Defined.



(* ================================================================== *)
(** * What loading sets up *)
(* ================================================================== *)

Section load.
Implicit Types (w : World) (e : Element) (i j term : nat).

Lemma lookup_controls_init w i :
  document (Rev2.controls_init w) !! i
  = (if bool_decide (i ∈ querySelectorAll (matches ["terminal"]) w)
     then refreshed else λ e, e) <$> document w !! i.
Proof.
  unfold Rev2.controls_init.
  destruct (controls_init_loop (querySelectorAll (matches ["terminal"]) w) w)
    as (-> & _ & _).
  apply lookup_foldl_alter, refreshed_idem.
Qed.

Lemma lookup_controls_init_Some w i e' :
  document (Rev2.controls_init w) !! i = Some e' →
  ∃ e, document w !! i = Some e ∧ el_id e' = el_id e ∧
       classList e' = classList e ∧ attributes e' = attributes e.
Proof.
  rewrite lookup_controls_init.
  destruct (document w !! i) as [e|]; [|done]. simpl. intros [= <-].
  exists e. split; [done|].
  case_bool_decide; [|done]. unfold refreshed. by destruct (title e).
Qed.

Lemma lookup_controls_init_Some_2 w i e :
  document w !! i = Some e →
  ∃ e', document (Rev2.controls_init w) !! i = Some e' ∧ el_id e' = el_id e ∧
        classList e' = classList e ∧ attributes e' = attributes e.
Proof.
  intros He. rewrite lookup_controls_init, He. simpl. eexists. split; [done|].
  case_bool_decide; [|done]. unfold refreshed. by destruct (title e).
Qed.


Lemma load_quiet w :
  calls (Rev2.load w) = calls w ∧ location_hash (Rev2.load w) = location_hash w ∧
  console (Rev2.load w) = console w ∧ historyBlocked (Rev2.load w) = historyBlocked w ∧
  scrollAdjustedHook (Rev2.load w) = true ∧
  IDs_TO_ADJUST_SCROLL (Rev2.load w)
  = IDs_TO_ADJUST_SCROLL (Rev2.nav_init (Rev2.controls_init w)).
Proof.
  unfold Rev2.load.
  destruct (deliver_mutations_frame (Rev2.nav_init (Rev2.controls_init w)))
    as (d & ->).
  destruct (controls_init_frame w) as (d' & o & ->).
  unfold Rev2.nav_init. simpl. by repeat case_bool_decide.
Qed.

Lemma Rev1_load_quiet w :
  calls (Rev1.load w) = calls w ∧ location_hash (Rev1.load w) = location_hash w ∧
  console (Rev1.load w) = console w ∧
  scrollAdjustedHook (Rev1.load w) = true ∧
  IDs_TO_ADJUST_SCROLL (Rev1.load w) = {["about"; "education"; "experience"]}.
Proof.
  unfold Rev1.load. rewrite Rev1_deliver_mutations.
  destruct (deliver_mutations_frame (Rev1.nav_init (Rev1.controls_init w)))
    as (d & ->).
  change (Rev1.controls_init w) with (Rev2.controls_init w).
  destruct (controls_init_frame w) as (d' & o & ->).
  unfold Rev1.nav_init. simpl. by repeat case_bool_decide.
Qed.



End load.



(** X7.  After the second revision has loaded, [IDs_TO_ADJUST_SCROLL] holds
    exactly the ids of the panels that carry the [data-adjust-scroll]
    attribute, and [window.__scrollAdjusted] is set, so that the green
    dot scrolls with [scrollAdjusted]; the first revision has the fixed
    set [about], [education], [experience] instead. *)
Theorem X7_adjust_scroll_ids w id :
  (id ∈ IDs_TO_ADJUST_SCROLL (Rev2.load w) ↔
   ∃ i e, document w !! i = Some e ∧ is_panel e = true ∧
          "data-adjust-scroll" ∈ attributes e ∧ el_id e = id) ∧
  scrollAdjustedHook (Rev2.load w) = true ∧
  IDs_TO_ADJUST_SCROLL (Rev1.load w) = {["about"; "education"; "experience"]}.
Proof.
  destruct (load_quiet w) as (_ & _ & _ & _ & Hhook & ->).
  destruct (Rev1_load_quiet w) as (_ & _ & _ & _ & Hids1).
  split; [|done].
  assert (IDs_TO_ADJUST_SCROLL (Rev2.nav_init (Rev2.controls_init w))
          = list_to_set
              (omap (λ i, el_id <$> document (Rev2.controls_init w) !! i)
                 (querySelectorAll
                    (λ e, has_class "terminal" e
                          && bool_decide ("data-adjust-scroll" ∈ attributes e))
                    (Rev2.controls_init w)))) as ->.
  { unfold Rev2.nav_init. by repeat case_bool_decide. }
  rewrite elem_of_list_to_set, list_elem_of_omap.
  setoid_rewrite elem_of_querySelectorAll.
  unfold is_panel, has_class. split.
  - intros (i & (e' & He' & [Hp Ha]%andb_true_iff) & Hid).
    rewrite He' in Hid. injection Hid as Hid.
    apply lookup_controls_init_Some in He' as (e & He & Hi & Hc & Hat).
    exists i, e. rewrite <- Hc, <- Hat, <- Hi.
    apply bool_decide_eq_true in Ha. done.
  - intros (i & e & He & Hp & Ha & Hid).
    apply lookup_controls_init_Some_2 in He as (e' & He' & Hi & Hc & Hat).
    exists i. split.
    + exists e'. split; [done|]. rewrite Hc, Hat, Hp. simpl.
      by apply bool_decide_eq_true.
    + rewrite He'. simpl. by rewrite Hi, Hid.
Qed.

(* ================================================================== *)
(** * What no handler touches *)
(* ================================================================== *)

Section projections.
Context {A : Type} (p : Element → A).
Hypothesis p_classList : ∀ f e, p (with_classList f e) = p e.
Hypothesis p_title : ∀ s e, p (with_title s e) = p e.
Implicit Types (w : World) (e : Element) (i j term : nat).













End projections.

Section ids.
Implicit Types (w : World) (e : Element) (i j term : nat).



End ids.


(* ================================================================== *)
(** * Clicking a dot twice *)
(* ================================================================== *)

Section twice.
Implicit Types (w : World) (e : Element) (s : gset string) (i j term : nat).

Lemma red_f_involutive s :
  "minimized" ∉ s → "maxwide" ∉ s → red_f (red_f s) = s.
Proof.
  intros Hm Hx. apply set_eq. intros c. rewrite !red_f_spec.
  destruct (decide (c = "closed")) as [->|];
    destruct (decide ("closed" ∈ s)); naive_solver.
Qed.

Lemma yellow_f_involutive s :
  "closed" ∉ s → "maxwide" ∉ s → yellow_f (yellow_f s) = s.
Proof.
  intros Hm Hx. apply set_eq. intros c. rewrite !yellow_f_spec.
  destruct (decide (c = "minimized")) as [->|];
    destruct (decide ("minimized" ∈ s)); naive_solver.
Qed.

(** Two updates of the class list that cancel out, each followed by a
    refresh of the title, give back an element whose title was up to
    date. *)
Lemma refreshed_round_trip f e :
  f (f (classList e)) = classList e → title_ok e →
  refreshed (with_classList f (refreshed (with_classList f e))) = e.
Proof.
  intros Hf Hok. destruct e as [i s a [t|]]; simpl in *.
  - unfold refreshed, with_classList, with_title. simpl.
    rewrite Hf. f_equal. f_equal. symmetry. by apply Hok.
  - unfold refreshed, with_classList. simpl. by rewrite Hf.
Qed.

Lemma alter_twice_id (g : Element → Element) term (d : list Element) e :
  d !! term = Some e → g (g e) = e → alter g term (alter g term d) = d.
Proof.
  intros He Hg. apply list_eq. intros j.
  destruct (decide (j = term)) as [->|Hne].
  - rewrite !list_lookup_alter_eq, He. simpl. by rewrite Hg.
  - by rewrite !list_lookup_alter_ne.
Qed.

Lemma is_panel_toggled f e :
  ("terminal" ∈ f (classList e) ↔ "terminal" ∈ classList e) →
  is_panel e = true → is_panel (refreshed (with_classList f e)) = true.
Proof.
  intros Hf. unfold is_panel. rewrite has_class_refreshed.
  unfold has_class. simpl. rewrite !bool_decide_eq_true. by rewrite Hf.
Qed.

End twice.

(** X9.  On a panel whose title is up to date, a second click on the same dot
    undoes the first: closing and reopening a panel that is neither
    minimized nor maximized, or minimizing and restoring one that is
    neither closed nor maximized, gives back the document as it was,
    titles included. *)
Theorem X9_click_twice vp btn term w e :
  document w !! term = Some e → is_panel e = true → title_ok e →
  let click :=
    Rev2.document_click vp (Rev2.mkMouseEvent (Some btn) (Some term)) in
  ("red" ∈ btn → minimized e = false → maximized e = false →
   document (click (click w)) = document w) ∧
  ("red" ∉ btn → "yellow" ∈ btn → closed e = false → maximized e = false →
   document (click (click w)) = document w).
Proof.
  intros He Hp Hok click. unfold closed, minimized, maximized, has_class.
  rewrite !bool_decide_eq_false. split.
  - intros Hred Hm Hx.
    pose proof (document_red_click vp btn term w e He Hp Hred) as H1.
    fold (click w) in H1.
    assert (document (click w) !! term
            = Some (refreshed (with_classList red_f e))) as He1.
    { by rewrite H1, list_lookup_alter_eq, He. }
    assert (is_panel (refreshed (with_classList red_f e)) = true) as Hp1.
    { apply is_panel_toggled; [|done]. rewrite red_f_spec. naive_solver. }
    unfold click at 1.
    rewrite (document_red_click vp btn term (click w) _ He1 Hp1 Hred), H1.
    apply (alter_twice_id _ term (document w) e He).
    apply refreshed_round_trip; [|done]. by apply red_f_involutive.
  - intros Hred Hyellow Hc Hx.
    pose proof (document_yellow_click vp btn term w e He Hp Hred Hyellow) as H1.
    fold (click w) in H1.
    assert (document (click w) !! term
            = Some (refreshed (with_classList yellow_f e))) as He1.
    { by rewrite H1, list_lookup_alter_eq, He. }
    assert (is_panel (refreshed (with_classList yellow_f e)) = true) as Hp1.
    { apply is_panel_toggled; [|done]. rewrite yellow_f_spec. naive_solver. }
    unfold click at 1.
    rewrite (document_yellow_click vp btn term (click w) _ He1 Hp1 Hred Hyellow),
      H1.
    apply (alter_twice_id _ term (document w) e He).
    apply refreshed_round_trip; [|done]. by apply yellow_f_involutive.
Qed.

Lemma X9_click_twice_witness :
  document
    (Rev2.document_click desktop (dot "red" 1)
       (Rev2.document_click desktop (dot "red" 1) (page cv "" false)))
  = document (page cv "" false).
Proof.
  assert (title_ok (panel "about" [] ["data-adjust-scroll"])) as Hok.
  { intros s [= <-]. by vm_compute. }
  destruct (X9_click_twice desktop {["dot"; "red"]} 1 (page cv "" false)
              (panel "about" [] ["data-adjust-scroll"]) eq_refl
              ltac:(by vm_compute) Hok) as [Hred _].
  apply Hred; [compute_done|by vm_compute|by vm_compute].
Defined.

(** ** The year in Roman numerals *)

Section roman.
Local Open Scope Z_scope.
Implicit Types (s res symbol : string) (num value n : Z) (fuel : nat).

Lemma string_app_nil_r s : s +:+ "" = s.
Proof.
  induction s as [|c s IH]; [done|].
  change (String c (s +:+ "") = String c s). by rewrite IH.
Qed.

Lemma string_app_assoc s1 s2 s3 : (s1 +:+ s2) +:+ s3 = s1 +:+ (s2 +:+ s3).
Proof.
  induction s1 as [|c s1 IH]; [done|].
  change (String c ((s1 +:+ s2) +:+ s3) = String c (s1 +:+ s2 +:+ s3)).
  by rewrite IH.
Qed.

Lemma while_ge_divide_out fuel value symbol res num :
  0 < value → (Z.to_nat num ≤ fuel)%nat →
  while_ge fuel value symbol (res, num) = divide_out (res, num) (value, symbol).
Proof.
  intros Hv. revert res num.
  induction fuel as [|fuel IH]; intros res num Hfuel; unfold divide_out; simpl.
  - case_bool_decide as Hnum; [|done].
    assert (num = 0) as -> by lia.
    by rewrite Z.div_0_l, Z.mod_0_l, string_app_nil_r by lia.
  - case_bool_decide as Hge.
    + rewrite IH by lia. unfold divide_out. simpl.
      rewrite !bool_decide_true by lia.
      replace (num / value) with ((num - value) / value + 1).
      2:{ replace num with ((num - value) + 1 * value) at 2 by lia.
          by rewrite Z.div_add by lia. }
      replace (num mod value) with ((num - value) mod value).
      2:{ replace num with ((num - value) + 1 * value) at 2 by lia.
          by rewrite Z.mod_add by lia. }
      rewrite Z2Nat.inj_add by (try apply Z.div_pos; lia).
      rewrite Nat.add_comm. simpl. by rewrite string_app_assoc.
    + case_bool_decide as Hnum; [|done].
      by rewrite Z.div_small, Z.mod_small, string_app_nil_r by lia.
Qed.

Lemma divide_out_le st entry : 0 < entry.1 → (divide_out st entry).2 ≤ Z.max 0 st.2.
Proof.
  intros Hv. unfold divide_out. case_bool_decide; simpl; [|lia].
  pose proof (Z.mod_le st.2 entry.1). lia.
Qed.

Lemma foldl_while_ge fuel (table : list (Z * string)) st :
  Forall (λ entry, 0 < entry.1) table → (Z.to_nat st.2 ≤ fuel)%nat →
  foldl (λ st entry, while_ge fuel entry.1 entry.2 st) st table
  = foldl divide_out st table.
Proof.
  intros Htable. revert st.
  induction Htable as [|[v sym] table Hv _ IH]; intros [res num] Hfuel; simpl;
    [done|].
  rewrite while_ge_divide_out by done. apply IH.
  pose proof (divide_out_le (res, num) (v, sym) Hv). simpl in *. lia.
Qed.

Lemma romanMap_positive : Forall (λ entry : Z * string, 0 < entry.1) romanMap.
Proof. unfold romanMap. repeat constructor. Qed.

Lemma toRoman_fuel_closed fuel num :
  (Z.to_nat num ≤ fuel)%nat →
  toRoman_fuel fuel num = (foldl divide_out ("", num) romanMap).1.
Proof.
  intros Hfuel. unfold toRoman_fuel.
  by rewrite foldl_while_ge by (apply romanMap_positive || done).
Qed.

(** The result so far is only ever appended to. *)
Lemma foldl_divide_out_prefix (table : list (Z * string)) p res num :
  foldl divide_out (p +:+ res, num) table
  = (p +:+ (foldl divide_out (res, num) table).1,
     (foldl divide_out (res, num) table).2).
Proof.
  revert res num. induction table as [|[v sym] table IH]; intros res num; simpl;
    [done|].
  unfold divide_out at 2 4 6. simpl. case_bool_decide; simpl.
  - rewrite <- IH. by rewrite string_app_assoc.
  - apply IH.
Qed.

Lemma foldl_divide_out_negative (table : list (Z * string)) res num :
  num < 0 → foldl divide_out (res, num) table = (res, num).
Proof.
  intros Hnum. induction table as [|entry table IH]; simpl; [done|].
  unfold divide_out at 2. simpl. by rewrite bool_decide_false by lia.
Qed.

Lemma divide_out_add_1000 n :
  0 ≤ n →
  divide_out ("", n + 1000) (1000, "M")
  = ("M" +:+ (divide_out ("", n) (1000, "M")).1,
     (divide_out ("", n) (1000, "M")).2).
Proof.
  intros Hn. unfold divide_out. simpl. rewrite !bool_decide_true by lia. simpl.
  replace ((n + 1000) / 1000) with (n / 1000 + 1)
    by (replace (n + 1000) with (n + 1 * 1000) by lia;
        by rewrite Z.div_add by lia).
  replace ((n + 1000) mod 1000) with (n mod 1000)
    by (replace (n + 1000) with (n + 1 * 1000) by lia;
        by rewrite Z.mod_add by lia).
  rewrite Z2Nat.inj_add by (try apply Z.div_pos; lia).
  by rewrite Nat.add_comm.
Qed.

Lemma toRoman_add_1000 n : 0 ≤ n → toRoman (n + 1000) = "M" +:+ toRoman n.
Proof.
  intros Hn. unfold toRoman. rewrite !toRoman_fuel_closed by done.
  assert (romanMap = (1000, "M") :: tail romanMap) as -> by done.
  generalize (tail romanMap). intros rest. cbn [foldl].
  rewrite divide_out_add_1000 by done.
  destruct (divide_out ("", n) (1000, "M")) as [res m]. cbn [fst snd].
  by rewrite foldl_divide_out_prefix.
Qed.

Lemma symbol_value_le c : symbol_value c ≤ 1000.
Proof. unfold symbol_value. repeat case_bool_decide; lia. Qed.

Lemma roman_value_M s : roman_value ("M" +:+ s) = 1000 + roman_value s.
Proof.
  change ("M" +:+ s) with (String "M" s).
  destruct s as [|c s]; [done|].
  pose proof (symbol_value_le c).
  change (roman_value (String "M" (String c s)))
    with (if bool_decide (1000 < symbol_value c)
          then roman_value (String c s) - 1000
          else roman_value (String c s) + 1000).
  rewrite bool_decide_false by lia. lia.
Qed.

Lemma roman_value_below_1000 n :
  0 ≤ n < 1000 → roman_value (toRoman n) = n.
Proof.
  assert (Forall (λ n, roman_value (toRoman n) = n) (seqZ 0 1000)) as Hall.
  { apply (bool_decide_unpack _). by vm_compute. }
  intros Hn. by apply (proj1 (Forall_seqZ _ 0 1000) Hall).
Qed.

Lemma roman_value_toRoman_thousands (k : nat) n :
  0 ≤ n < 1000 →
  roman_value (toRoman (n + 1000 * Z.of_nat k)) = n + 1000 * Z.of_nat k.
Proof.
  intros Hn. induction k as [|k IH].
  - rewrite Z.add_0_r. by apply roman_value_below_1000.
  - replace (n + 1000 * Z.of_nat (S k)) with ((n + 1000 * Z.of_nat k) + 1000)
      by lia.
    rewrite toRoman_add_1000, roman_value_M, IH by lia. lia.
Qed.

Lemma roman_value_toRoman n : 0 ≤ n → roman_value (toRoman n) = n.
Proof.
  intros Hn.
  replace n with (n mod 1000 + 1000 * Z.of_nat (Z.to_nat (n / 1000))).
  - apply roman_value_toRoman_thousands. apply Z.mod_pos_bound. lia.
  - rewrite Z2Nat.id by (apply Z.div_pos; lia).
    pose proof (Z.div_mod n 1000). lia.
Qed.

End roman.

(** X10.  Read back as a Roman numeral, [toRoman n] is [n], for every
    non-negative [n]. *)
Theorem X10_toRoman_round_trip (n : Z) :
  (0 ≤ n)%Z → roman_value (toRoman n) = n.
Proof. apply roman_value_toRoman. Qed.

Lemma X10_toRoman_round_trip_witness :
  toRoman 2024 = "MMXXIV" ∧ roman_value (toRoman 2024) = 2024%Z.
Proof.
  split; [by vm_compute|]. apply (X10_toRoman_round_trip 2024). lia.
Defined.

(** X11.  The loops of [toRoman] end: with [num] iterations allowed every
    [while] loop stops because its condition fails, and allowing more
    iterations changes nothing. *)
Theorem X11_toRoman_terminates (fuel : nat) (num : Z) :
  (Z.to_nat num ≤ fuel)%nat →
  toRoman_fuel fuel num = toRoman num ∧
  ∀ value symbol res, (0 < value)%Z →
    ((while_ge fuel value symbol (res, num)).2 < value)%Z.
Proof.
  intros Hfuel. split.
  - unfold toRoman. by rewrite !toRoman_fuel_closed.
  - intros value symbol res Hv. rewrite while_ge_divide_out by done.
    unfold divide_out. cbn [fst snd]. case_bool_decide; cbn [snd].
    + by apply Z.mod_pos_bound.
    + lia.
Qed.

Lemma X11_toRoman_terminates_witness :
  toRoman_fuel 5000 2024 = toRoman 2024 ∧
  ((while_ge 5000 1000 "M" ("", 2024)).2 < 1000)%Z.
Proof.
  destruct (X11_toRoman_terminates 5000 2024 ltac:(lia)) as [H1 H2].
  split; [exact H1|]. apply H2. lia.
Defined.

(** X12.  [toRoman] gives the empty string exactly for zero and negative
    numbers. *)
Theorem X12_toRoman_empty (n : Z) : toRoman n = "" ↔ (n ≤ 0)%Z.
Proof.
  split.
  - intros Hempty. destruct (decide (n ≤ 0)%Z) as [|Hpos]; [done|].
    pose proof (roman_value_toRoman n ltac:(lia)) as Hv.
    rewrite Hempty in Hv. simpl in Hv. lia.
  - intros Hn. unfold toRoman. rewrite toRoman_fuel_closed by done.
    destruct (decide (n = 0%Z)) as [->|Hne]; [by vm_compute|].
    by rewrite foldl_divide_out_negative by lia.
Qed.

(** X13.  Adding a thousand puts one more [M] in front. *)
Theorem X13_toRoman_thousand (n : Z) :
  (0 ≤ n)%Z → toRoman (n + 1000) = "M" +:+ toRoman n.
Proof. apply toRoman_add_1000. Qed.

Lemma X13_toRoman_thousand_witness :
  toRoman (1024 + 1000) = "M" +:+ toRoman 1024.
Proof. apply (X13_toRoman_thousand 1024). lia. Defined.

(** X14.  Below 4000 the numeral is in standard form: no symbol is written
    four times in a row (4000 itself is [MMMM]). *)
Theorem X14_toRoman_standard (n : Z) :
  (0 ≤ n < 4000)%Z → four_in_a_row (toRoman n) = false.
Proof.
  assert (Forall (λ n, four_in_a_row (toRoman n) = false) (seqZ 0 4000))
    as Hall.
  { apply (bool_decide_unpack _). by vm_compute. }
  intros Hn. by apply (proj1 (Forall_seqZ _ 0 4000) Hall).
Qed.

Lemma X14_toRoman_standard_witness :
  four_in_a_row (toRoman 1999) = false ∧ four_in_a_row (toRoman 4000) = true.
Proof.
  split; [apply (X14_toRoman_standard 1999); lia|by vm_compute].
Defined.

(** ** The palette switcher *)

Section palette.
Implicit Types (c : Chrome) (p q current : string) (i k : nat).

Lemma PALETTES_NoDup : NoDup PALETTES.
Proof. apply (bool_decide_unpack _). by vm_compute. Qed.

Lemma PALETTES_nonempty p : p ∈ PALETTES → p ≠ "".
Proof. unfold PALETTES. set_solver. Qed.

Lemma PALETTES_lookup_lt i p : PALETTES !! i = Some p → i < 9.
Proof. intros H%lookup_lt_Some. exact H. Qed.

Lemma indexOf_from_not_in p (k : Z) (l : list string) :
  p ∉ l → indexOf_from p k l = (-1)%Z.
Proof.
  revert k. induction l as [|y l IH]; intros k Hp; simpl; [done|].
  rewrite bool_decide_false by set_solver. apply IH. set_solver.
Qed.

(** The successor of the [i]-th palette is the next one, cyclically. *)
Lemma next_palette_lookup i p :
  PALETTES !! i = Some p → PALETTES !! ((i + 1) mod 9) = Some (next_palette p).
Proof.
  intros Hi. pose proof (PALETTES_lookup_lt i p Hi) as Hlt.
  do 9 (destruct i as [|i]; [injection Hi as <-; by vm_compute|]). lia.
Qed.

Lemma next_palette_unknown p : p ∉ PALETTES → next_palette p = "one-dark".
Proof.
  intros Hp. unfold next_palette, indexOf.
  by rewrite indexOf_from_not_in.
Qed.

Lemma next_palette_in p : next_palette p ∈ PALETTES.
Proof.
  destruct (decide (p ∈ PALETTES)) as [Hin|Hout].
  - apply list_elem_of_lookup in Hin as [i Hi].
    apply list_elem_of_lookup. eexists. by apply next_palette_lookup.
  - rewrite next_palette_unknown by done. unfold PALETTES. set_solver.
Qed.

Lemma iter_next_palette_lookup k i p :
  PALETTES !! i = Some p →
  PALETTES !! ((i + k) mod 9) = Some (Nat.iter k next_palette p).
Proof.
  intros Hi. pose proof (PALETTES_lookup_lt i p Hi) as Hlt.
  induction k as [|k IH].
  - by rewrite Nat.add_0_r, Nat.mod_small.
  - apply next_palette_lookup in IH.
    change (Nat.iter (S k) next_palette p)
      with (next_palette (Nat.iter k next_palette p)).
    replace ((i + S k) mod 9) with (((i + k) mod 9 + 1) mod 9); [done|].
    rewrite Nat.Div0.add_mod_idemp_l. f_equal. lia.
Qed.

Lemma getCurrentPalette_set p c :
  p ≠ "" → getCurrentPalette (Palette2.setPalette p c) = p.
Proof.
  intros Hp. unfold getCurrentPalette, Palette2.setPalette, show_name,
    Palette2.safeStorage_set.
  destruct (localStorage _), (paletteName _); simpl;
    by rewrite bool_decide_false.
Qed.

Lemma data_palette_setPalette p c :
  data_palette (Palette2.setPalette p c) = Some p.
Proof.
  unfold Palette2.setPalette, show_name, Palette2.safeStorage_set.
  by destruct (localStorage _), (paletteName _).
Qed.

Lemma localStorage_setPalette p c m :
  localStorage c = Some m →
  localStorage (Palette2.setPalette p c) = Some (<["palette" := p]> m).
Proof.
  intros Hm. unfold Palette2.setPalette, show_name, Palette2.safeStorage_set.
  simpl. rewrite Hm. simpl. by destruct (paletteName c).
Qed.

Lemma paletteName_setPalette p c :
  paletteName (Palette2.setPalette p c)
  = (λ _, display_name p) <$> paletteName c.
Proof.
  by destruct c as [y d [m|] [n|]].
Qed.

Lemma display_name_in p :
  p ∈ PALETTES → PALETTE_NAMES !! p = Some (display_name p) ∧ display_name p ≠ p.
Proof.
  unfold PALETTES. intros Hp.
  repeat (apply elem_of_cons in Hp as [->|Hp]; [by vm_compute|]).
  by apply elem_of_nil in Hp.
Qed.

Lemma iter_palette_click k c p :
  data_palette c = Some p → p ≠ "" →
  data_palette (Nat.iter k Palette2.palette_click c)
  = Some (Nat.iter k next_palette p).
Proof.
  intros Hc Hp. induction k as [|k IH]; simpl; [done|].
  unfold Palette2.palette_click at 1. rewrite data_palette_setPalette.
  f_equal. f_equal.
  destruct k as [|k]; simpl in *.
  - unfold getCurrentPalette. rewrite Hc. simpl. by rewrite bool_decide_false.
  - unfold getCurrentPalette. rewrite IH. simpl.
    rewrite bool_decide_false; [done|].
    apply PALETTES_nonempty, next_palette_in.
Qed.

(** [Math.floor(Math.random() * n)] is an index below [n]. *)
Lemma Math_floor_random (random : Qc) (n : Z) :
  (0 ≤ random)%Qc → (random < 1)%Qc → (0 < n)%Z →
  (0 ≤ Math_floor (random * px n) < n)%Z.
Proof.
  intros H0 H1 Hn. unfold Math_floor.
  assert (this (random * px n)%Qc == this random * inject_Z n)%Q as Heq.
  { unfold px. simpl. rewrite !Qred_correct. reflexivity. }
  rewrite Heq.
  assert (0 <= this random)%Q as Hr0 by exact H0.
  assert (this random < 1)%Q as Hr1 by exact H1.
  assert (0 < inject_Z n)%Q as Hnq.
  { change (inject_Z 0 < inject_Z n)%Q. rewrite <- Zlt_Qlt. exact Hn. }
  pose proof (Qfloor_le (this random * inject_Z n)) as Hle.
  pose proof (Qlt_floor (this random * inject_Z n)) as Hlt.
  rewrite inject_Z_plus in Hlt.
  set (f := Qfloor (this random * inject_Z n)) in *.
  assert (0 <= this random * inject_Z n)%Q as Hx0 by nra.
  assert (this random * inject_Z n < inject_Z n)%Q as Hxn by nra.
  split.
  - assert (inject_Z (-1) < inject_Z f)%Q as Hf.
    { change (inject_Z (-1)) with (-1 # 1)%Q.
      change (inject_Z 1) with 1%Q in Hlt. lra. }
    rewrite <- Zlt_Qlt in Hf. lia.
  - rewrite Zlt_Qlt. lra.
Qed.



Lemma choose_initial_saved q (random : Qc) :
  q ∈ PALETTES → choose_initial (Some q) random = q.
Proof.
  intros Hq. pose proof (PALETTES_nonempty q Hq) as Hne.
  unfold choose_initial, includes, or_else.
  rewrite (bool_decide_false (q = "")) by done.
  by rewrite !bool_decide_true.
Qed.

End palette.

(** X15.  The palette after a click is the successor of the current one in
    [PALETTES], or the first one when the current one is not in the
    list; it is stored, and shown under its display name. *)
Theorem X15_palette_click c :
  ∃ p,
    data_palette (Palette2.palette_click c) = Some p ∧ p ∈ PALETTES ∧
    (∀ i q, data_palette c = Some q → PALETTES !! i = Some q →
            PALETTES !! ((i + 1) mod 9) = Some p) ∧
    (data_palette c = None ∨ data_palette c = Some "" → p = "dracula") ∧
    (∀ q, data_palette c = Some q → q ≠ "" → q ∉ PALETTES → p = "one-dark") ∧
    (∀ t, paletteName c = Some t →
          paletteName (Palette2.palette_click c) = PALETTE_NAMES !! p) ∧
    (∀ m, localStorage c = Some m →
          localStorage (Palette2.palette_click c) = Some (<["palette" := p]> m)) ∧
    (localStorage c = None → localStorage (Palette2.palette_click c) = None).
Proof.
  exists (next_palette (getCurrentPalette c)).
  unfold Palette2.palette_click.
  split; [apply data_palette_setPalette|].
  split; [apply next_palette_in|].
  split; [|split; [|split; [|split; [|split]]]].
  - intros i q Hc Hi. apply next_palette_lookup.
    unfold getCurrentPalette. rewrite Hc. simpl.
    rewrite bool_decide_false; [done|].
    apply PALETTES_nonempty. by eapply list_elem_of_lookup_2.
  - intros [Hc|Hc]; unfold getCurrentPalette; rewrite Hc; by vm_compute.
  - intros q Hc Hne Hout. unfold getCurrentPalette. rewrite Hc. simpl.
    rewrite bool_decide_false by done. by apply next_palette_unknown.
  - intros t Ht. rewrite paletteName_setPalette, Ht. simpl.
    symmetry. apply display_name_in, next_palette_in.
  - intros m Hm. by apply localStorage_setPalette.
  - intros Hm. by destruct c as [y d [m|] [n|]].
Qed.

(** X16.  Nine clicks bring the palette back, fewer do not, and every palette
    is reached on the way. *)
Theorem X16_palette_cycle c p :
  data_palette c = Some p → p ∈ PALETTES →
  data_palette (Nat.iter 9 Palette2.palette_click c) = Some p ∧
  (∀ k, 0 < k < 9 →
        data_palette (Nat.iter k Palette2.palette_click c) ≠ Some p) ∧
  (∀ q, q ∈ PALETTES →
        ∃ k, k < 9 ∧ data_palette (Nat.iter k Palette2.palette_click c) = Some q).
Proof.
  intros Hc Hp. pose proof (PALETTES_nonempty p Hp) as Hne.
  apply list_elem_of_lookup in Hp as [i Hi].
  pose proof (PALETTES_lookup_lt i p Hi) as Hlt.
  assert (∀ k, data_palette (Nat.iter k Palette2.palette_click c)
               = PALETTES !! ((i + k) mod 9)) as Hiter.
  { intros k. rewrite (iter_palette_click k c p Hc Hne).
    symmetry. by apply iter_next_palette_lookup. }
  split; [|split].
  - rewrite Hiter. replace (i + 9) with (i + 1 * 9) by lia.
    by rewrite Nat.Div0.mod_add, Nat.mod_small.
  - intros k Hk. rewrite Hiter. intros Hk'.
    pose proof (NoDup_lookup _ _ _ _ PALETTES_NoDup Hk' Hi) as Heq.
    destruct (decide (i + k < 9)) as [Hsmall|Hbig].
    + rewrite Nat.mod_small in Heq by done. lia.
    + replace (i + k) with ((i + k - 9) + 1 * 9) in Heq by lia.
      rewrite Nat.Div0.mod_add, Nat.mod_small in Heq by lia. lia.
  - intros q [j Hj]%list_elem_of_lookup.
    pose proof (PALETTES_lookup_lt j q Hj) as Hjlt.
    destruct (decide (i ≤ j)) as [Hle|Hgt].
    + exists (j - i). split; [lia|]. rewrite Hiter.
      replace (i + (j - i)) with j by lia. by rewrite Nat.mod_small.
    + exists (9 + j - i). split; [lia|]. rewrite Hiter.
      replace (i + (9 + j - i)) with (j + 1 * 9) by lia.
      by rewrite Nat.Div0.mod_add, Nat.mod_small.
Qed.

Lemma X16_palette_cycle_witness :
  data_palette
    (Nat.iter 9 Palette2.palette_click
       (mkChrome [] (Some "nord") (Some ∅) (Some ""))) = Some "nord".
Proof.
  apply (proj1 (X16_palette_cycle (mkChrome [] (Some "nord") (Some ∅) (Some ""))
                  "nord" eq_refl ltac:(compute_done))).
Defined.

(** X17.  What a click stores is what the next load applies, whatever
    [Math.random()] returns then. *)
Theorem X17_palette_persisted c m random c2 :
  localStorage c = Some m →
  localStorage c2 = localStorage (Palette2.palette_click c) →
  data_palette (Palette2.palette_init random c2)
  = data_palette (Palette2.palette_click c).
Proof.
  intros Hm Hc2. unfold Palette2.palette_init.
  rewrite data_palette_setPalette. unfold Palette2.safeStorage_get.
  rewrite Hc2. unfold Palette2.palette_click at 1.
  rewrite (localStorage_setPalette _ _ m Hm), lookup_insert_eq.
  rewrite choose_initial_saved by apply next_palette_in.
  unfold Palette2.palette_click. by rewrite data_palette_setPalette.
Qed.

Lemma X17_palette_persisted_witness :
  data_palette
    (Palette2.palette_init (Q2Qc (1 # 2))
       (mkChrome [] None
          (localStorage (Palette2.palette_click
                           (mkChrome [] (Some "nord") (Some ∅) None)))
          None))
  = Some "solarized".
Proof.
  rewrite (X17_palette_persisted (mkChrome [] (Some "nord") (Some ∅) None) ∅
             (Q2Qc (1 # 2))
             (mkChrome [] None
                (localStorage (Palette2.palette_click
                                 (mkChrome [] (Some "nord") (Some ∅) None)))
                None) eq_refl eq_refl).
  by vm_compute.
Defined.



Lemma yearRoman_palette_init2 random c :
  yearRoman (Palette2.palette_init random c) = yearRoman c.
Proof. by destruct c as [y d [m|] [n|]]. Qed.

Lemma yearRoman_palette_init1 random c :
  yearRoman (state_of (Palette1.palette_init random c)) = yearRoman c.
Proof. by destruct c as [y d [m|] [n|]]. Qed.



(** X20.  Whether or not the main function runs to its end, every [#yearRoman]
    element then shows the year as a Roman numeral, which reads back as
    the year. *)
Theorem X20_footer_year year (random : Qc) c w :
  (0 ≤ year)%Z →
  ∀ st, st = state_of (Palette1.main year random (c, w)) ∨
        st = state_of (Palette2.main year random (c, w)) →
    length (yearRoman st.1) = length (yearRoman c) ∧
    ∀ t, t ∈ yearRoman st.1 → t = toRoman year ∧ roman_value t = year.
Proof.
  intros Hyear st Hst.
  assert (yearRoman st.1 = (λ _, toRoman year) <$> yearRoman c) as ->.
  { destruct Hst as [-> | ->].
    - unfold Palette1.main. cbn [fst snd].
      pose proof (yearRoman_palette_init1 random (update_year year c)) as Hy.
      destruct (Palette1.palette_init random (update_year year c));
        simpl in *; by rewrite Hy.
    - unfold Palette2.main. simpl. by rewrite yearRoman_palette_init2. }
  split; [by rewrite length_fmap|].
  intros t (x & -> & _)%list_elem_of_fmap.
  split; [done|]. by apply roman_value_toRoman.
Qed.

Lemma X20_footer_year_witness :
  yearRoman (state_of (Palette2.main 2026 (Q2Qc (1 # 2))
                         (mkChrome [""] None None None,
                          Page.page Page.cv "" false))).1
  = ["MMXXVI"] ∧ roman_value "MMXXVI" = 2026%Z.
Proof.
  destruct (X20_footer_year 2026 (Q2Qc (1 # 2)) (mkChrome [""] None None None)
              (Page.page Page.cv "" false) ltac:(lia) _ (or_intror eq_refl))
    as [_ Hall].
  split; [reflexivity|].
  refine (proj2 (Hall "MMXXVI" _)). vm_compute. constructor.
Defined.

(** ** Colours of the glitch background *)

Section colours.
Local Open Scope Z_scope.
Implicit Types (s hex : string) (c : ascii).

Lemma hex_value_range c : is_hex c = true → 0 ≤ hex_value c ≤ 15.
Proof.
  unfold is_hex, hex_value. simpl.
  repeat case_bool_decide; simpl; try done; lia.
Qed.

Lemma after_hash_hex c s : is_hex c = true → after_hash (String c s) = String c s.
Proof.
  intros Hc. destruct (decide (c = "#"%char)) as [->|Hne]; [done|].
  destruct c as [[] [] [] [] [] [] [] []]; done.
Qed.


Lemma match_full_Some s r g b :
  match_full s = Some (r, g, b) ↔
  after_hash s
  = String r.1 (String r.2 (String g.1 (String g.2 (String b.1 (String b.2
      EmptyString))))) ∧
  is_hex r.1 = true ∧ is_hex r.2 = true ∧ is_hex g.1 = true ∧
  is_hex g.2 = true ∧ is_hex b.1 = true ∧ is_hex b.2 = true.
Proof.
  unfold match_full.
  destruct (after_hash s) as [|c1 [|c2 [|c3 [|c4 [|c5 [|c6 [|c7 s']]]]]]];
    try (split; [done|by intros [? _]]).
  destruct r as [r1 r2], g as [g1 g2], b as [b1 b2]. simpl. split.
  - destruct (is_hex c1) eqn:?, (is_hex c2) eqn:?, (is_hex c3) eqn:?,
      (is_hex c4) eqn:?, (is_hex c5) eqn:?, (is_hex c6) eqn:?; simpl;
      try done.
    intros [= <- <- <- <- <- <-]. done.
  - intros ([= -> -> -> -> -> ->] & -> & -> & -> & -> & -> & ->). done.
Qed.

Lemma match_full_None s :
  match_full s = None ↔
  ¬ (String.length (after_hash s) = 6%nat ∧ all_hex (after_hash s) = true).
Proof.
  unfold match_full.
  destruct (after_hash s) as [|c1 [|c2 [|c3 [|c4 [|c5 [|c6 [|c7 s']]]]]]];
    simpl; try (split; [intros _ [? _]; done|done]).
  rewrite andb_true_r, !andb_assoc.
  destruct (_ && _); split; try done; naive_solver.
Qed.

Lemma match_shorthand_Some s (r g b : ascii) :
  match_shorthand s = Some (r, g, b) ↔
  after_hash s = String r (String g (String b EmptyString)) ∧
  is_hex r = true ∧ is_hex g = true ∧ is_hex b = true.
Proof.
  unfold match_shorthand.
  destruct (after_hash s) as [|c1 [|c2 [|c3 [|c4 s']]]];
    try (split; [done|by intros [? _]]).
  split.
  - destruct (is_hex c1) eqn:?, (is_hex c2) eqn:?, (is_hex c3) eqn:?; simpl;
      try done.
    intros [= <- <- <-]. done.
  - intros ([= -> -> ->] & -> & -> & ->). done.
Qed.

Lemma match_shorthand_None s :
  match_shorthand s = None ↔
  ¬ (String.length (after_hash s) = 3%nat ∧ all_hex (after_hash s) = true).
Proof.
  unfold match_shorthand.
  destruct (after_hash s) as [|c1 [|c2 [|c3 [|c4 s']]]];
    simpl; try (split; [intros _ [? _]; done|done]).
  rewrite andb_true_r, !andb_assoc.
  destruct (_ && _); split; try done; naive_solver.
Qed.

Lemma parseInt16_range xy :
  is_hex xy.1 = true → is_hex xy.2 = true → 0 ≤ parseInt16 xy ≤ 255.
Proof.
  intros H1%hex_value_range H2%hex_value_range. unfold parseInt16. lia.
Qed.

(** What [hexToRgb] returns on the short form. *)
Lemma hexToRgb_shorthand s (r g b : ascii) :
  match_shorthand s = Some (r, g, b) →
  hexToRgb s = Some {| red := 17 * hex_value r; green := 17 * hex_value g;
                       blue := 17 * hex_value b |}.
Proof.
  intros Hs. unfold hexToRgb. rewrite Hs.
  apply match_shorthand_Some in Hs as (_ & Hr & Hg & Hb).
  assert (match_full (String r (String r (String g (String g (String b
            (String b EmptyString))))))
          = Some ((r, r), (g, g), (b, b))) as ->.
  { apply match_full_Some. rewrite after_hash_hex by done. done. }
  unfold parseInt16. simpl. f_equal. f_equal; lia.
Qed.

Lemma hexToRgb_not_shorthand s :
  match_shorthand s = None →
  hexToRgb s = match match_full s with
               | Some (r, g, b) =>
                 Some {| red := parseInt16 r; green := parseInt16 g;
                         blue := parseInt16 b |}
               | None => None
               end.
Proof. intros Hs. unfold hexToRgb. by rewrite Hs. Qed.

End colours.

(** X21.  Every component of a parsed colour is between 0 and 255. *)
Theorem X21_hexToRgb_range hex c :
  hexToRgb hex = Some c →
  (0 ≤ red c ≤ 255 ∧ 0 ≤ green c ≤ 255 ∧ 0 ≤ blue c ≤ 255)%Z.
Proof.
  destruct (match_shorthand hex) as [[[r g] b]|] eqn:Hs.
  - rewrite (hexToRgb_shorthand hex r g b Hs). intros [= <-]. simpl.
    apply match_shorthand_Some in Hs
      as (_ & Hr%hex_value_range & Hg%hex_value_range & Hb%hex_value_range).
    lia.
  - rewrite (hexToRgb_not_shorthand hex Hs).
    destruct (match_full hex) as [[[r g] b]|] eqn:Hf; [|done].
    intros [= <-]. simpl.
    apply match_full_Some in Hf as (_ & ? & ? & ? & ? & ? & ?).
    auto using parseInt16_range.
Qed.

Lemma X21_hexToRgb_range_witness :
  ∃ c, hexToRgb "#98c379" = Some c ∧
       (0 ≤ red c ≤ 255 ∧ 0 ≤ green c ≤ 255 ∧ 0 ≤ blue c ≤ 255)%Z.
Proof.
  exists {| red := 152; green := 195; blue := 121 |}.
  split; [reflexivity|].
  apply (X21_hexToRgb_range "#98c379"). reflexivity.
Defined.

(** X22.  A colour is parsed exactly when, after an optional leading [#], the
    string is three or six hexadecimal digits. *)
Theorem X22_hexToRgb_accepts hex :
  is_Some (hexToRgb hex) ↔
  all_hex (after_hash hex) = true ∧
  (String.length (after_hash hex) = 3 ∨ String.length (after_hash hex) = 6).
Proof.
  destruct (match_shorthand hex) as [[[r g] b]|] eqn:Hs.
  - rewrite (hexToRgb_shorthand hex r g b Hs).
    apply match_shorthand_Some in Hs as (-> & Hr & Hg & Hb). simpl.
    rewrite Hr, Hg, Hb. split; [by eauto|by eauto].
  - rewrite (hexToRgb_not_shorthand hex Hs).
    apply match_shorthand_None in Hs.
    destruct (match_full hex) as [[[r g] b]|] eqn:Hf.
    + apply match_full_Some in Hf as (-> & H1 & H2 & H3 & H4 & H5 & H6).
      simpl. rewrite H1, H2, H3, H4, H5, H6. split; [by eauto|by eauto].
    + apply match_full_None in Hf. split; [by intros [? ?]|].
      intros [Hall [H3|H6]]; [destruct Hs|destruct Hf]; done.
Qed.

(** X23.  The three-digit form stands for the six-digit form with every digit
    doubled, with or without the leading [#]. *)
Theorem X23_hexToRgb_shorthand (r g b : ascii) :
  is_hex r = true → is_hex g = true → is_hex b = true →
  let short := String r (String g (String b EmptyString)) in
  let long := String r (String r (String g (String g (String b (String b
                EmptyString))))) in
  let colour := {| red := 17 * hex_value r; green := 17 * hex_value g;
                   blue := 17 * hex_value b |} in
  hexToRgb short = Some colour ∧ hexToRgb (String "#" short) = Some colour ∧
  hexToRgb long = Some colour ∧ hexToRgb (String "#" long) = Some colour.
Proof.
  intros Hr Hg Hb short long colour.
  assert (match_shorthand short = Some (r, g, b)) as Hs1.
  { apply match_shorthand_Some. unfold short. by rewrite after_hash_hex. }
  assert (match_shorthand (String "#" short) = Some (r, g, b)) as Hs2.
  { by apply match_shorthand_Some. }
  assert (∀ s, after_hash s = long →
               hexToRgb s = Some colour) as Hlong.
  { intros s Hs.
    rewrite hexToRgb_not_shorthand.
    - assert (match_full s = Some ((r, r), (g, g), (b, b))) as ->
        by (by apply match_full_Some).
      unfold parseInt16, colour. simpl. f_equal. f_equal; lia.
    - apply match_shorthand_None. rewrite Hs. by intros [? _]. }
  split; [by apply hexToRgb_shorthand|].
  split; [by apply hexToRgb_shorthand|].
  split; apply Hlong; [|done]. unfold long. by rewrite after_hash_hex.
Qed.

Lemma X23_hexToRgb_shorthand_witness :
  hexToRgb "#fa0" = Some {| red := 255; green := 170; blue := 0 |} ∧
  hexToRgb "ffaa00" = Some {| red := 255; green := 170; blue := 0 |}.
Proof.
  destruct (X23_hexToRgb_shorthand "f" "a" "0" eq_refl eq_refl eq_refl)
    as (_ & H2 & H3 & _).
  split; [exact H2|exact H3].
Defined.

Section hex_pairs.
Local Open Scope Z_scope.

Lemma hex_pair_spec n :
  0 ≤ n ≤ 255 →
  ∃ x y, hex_pair n = String x (String y EmptyString) ∧
         is_hex x = true ∧ is_hex y = true ∧ parseInt16 (x, y) = n.
Proof.
  intros Hn.
  assert (Forall (λ n, is_hex (hex_char (n / 16)) = true ∧
                       is_hex (hex_char (n mod 16)) = true ∧
                       parseInt16 (hex_char (n / 16), hex_char (n mod 16)) = n)
                 (seqZ 0 256)) as Hall.
  { apply (bool_decide_unpack _). by vm_compute. }
  destruct (proj1 (Forall_seqZ _ 0 256) Hall n ltac:(lia)) as (Hx & Hy & Hv).
  by eexists _, _.
Qed.

End hex_pairs.

(** X24.  Every colour has a six-digit form that [hexToRgb] parses back to
    it. *)
Theorem X24_hexToRgb_round_trip (r g b : Z) :
  (0 ≤ r ≤ 255)%Z → (0 ≤ g ≤ 255)%Z → (0 ≤ b ≤ 255)%Z →
  hexToRgb ("#" +:+ hex_pair r +:+ hex_pair g +:+ hex_pair b)
  = Some {| red := r; green := g; blue := b |}.
Proof.
  intros (r1 & r2 & -> & Hr1 & Hr2 & <-)%hex_pair_spec
         (g1 & g2 & -> & Hg1 & Hg2 & <-)%hex_pair_spec
         (b1 & b2 & -> & Hb1 & Hb2 & <-)%hex_pair_spec.
  rewrite hexToRgb_not_shorthand.
  - assert (match_full ("#" +:+ String r1 (String r2 "")
                        +:+ String g1 (String g2 "")
                        +:+ String b1 (String b2 ""))
            = Some ((r1, r2), (g1, g2), (b1, b2))) as ->; [|done].
    by apply match_full_Some.
  - apply match_shorthand_None. by intros [? _].
Qed.

Lemma X24_hexToRgb_round_trip_witness :
  hexToRgb "#98c379" = Some {| red := 152; green := 195; blue := 121 |}.
Proof.
  apply (X24_hexToRgb_round_trip 152 195 121); lia.
Defined.

(** ** The grid of letters *)

Section grid.
Local Open Scope Z_scope.

Lemma this_px n : (this (px n) == inject_Z n)%Q.
Proof. unfold px. simpl. apply Qred_correct. Qed.

(** [Math.ceil(x / d) * d] is the least multiple of [d] not below [x]. *)
Lemma Math_ceil_bounds (x : Qc) (d : Z) :
  0 < d →
  (px (Math_ceil (x / px d) * d - d) < x)%Qc ∧
  (x ≤ px (Math_ceil (x / px d) * d))%Qc.
Proof.
  intros Hd. unfold Math_ceil.
  assert (0 < inject_Z d)%Q as Hdq.
  { change (inject_Z 0 < inject_Z d)%Q. by rewrite <- Zlt_Qlt. }
  assert (this (x / px d)%Qc == this x / inject_Z d)%Q as Hq.
  { unfold Qcdiv, Qcmult, Qdiv.
    etransitivity; [apply Qred_correct|].
    apply Qmult_comp; [reflexivity|].
    unfold Qcinv. etransitivity; [apply Qred_correct|].
    apply Qinv_comp, this_px. }
  set (k := Qceiling (this (x / px d)%Qc)).
  pose proof (Qceiling_lt (this (x / px d)%Qc)) as Hlt.
  pose proof (Qle_ceiling (this (x / px d)%Qc)) as Hle.
  fold k in Hlt, Hle. rewrite Hq in Hlt, Hle.
  unfold Z.sub in Hlt. rewrite inject_Z_plus in Hlt.
  change (inject_Z (-1)) with (-1 # 1)%Q in Hlt.
  assert (this x == (this x / inject_Z d) * inject_Z d)%Q as Hx.
  { field. apply Qnot_eq_sym, Qlt_not_eq, Hdq. }
  set (q := (this x / inject_Z d)%Q) in *.
  split.
  - unfold Qclt. rewrite this_px.
    unfold Z.sub. rewrite inject_Z_plus, inject_Z_mult, inject_Z_opp.
    rewrite Hx. clearbody q. clear Hx Hq.
    generalize dependent (inject_Z k). generalize dependent (inject_Z d).
    intros D HD K HK1 HK2.
    assert (K * D + - D == (K + inject_Z (- (1))) * D)%Q as ->.
    { change (inject_Z (- (1))) with (-1 # 1)%Q. ring. }
    by apply Qmult_lt_r.
  - unfold Qcle. rewrite this_px, inject_Z_mult. rewrite Hx.
    apply Qmult_le_compat_r; [done|]. by apply Qlt_le_weak.
Qed.

End grid.


Section tiling.
Local Open Scope Z_scope.

(** Where the letter of index [i] is drawn. *)
Lemma positions_drawLetters st :
  positions (drawLetters st)
  = (λ i : nat, (Z.rem (Z.of_nat i) (columns (grid st)) * charWidth,
                 Z.of_nat i / columns (grid st) * charHeight))
    <$> seq 0 (length (letters st)).
Proof.
  unfold positions, drawLetters. cbn [omap list_omap].
  generalize (columns (grid st)). intros cols.
  assert (∀ (l : list Letter) (k : nat),
    omap (λ c, match c with fillText _ _ x y => Some (x, y) | _ => None end)
      (imap (λ index letter,
               fillText (char letter) (color letter)
                 (Z.rem (Z.of_nat (k + index)) cols * charWidth)
                 (Z.of_nat (k + index) / cols * charHeight)) l)
    = (λ i : nat, (Z.rem (Z.of_nat i) cols * charWidth,
                   Z.of_nat i / cols * charHeight)) <$> seq k (length l))
    as Hgen.
  { induction l as [|x l IH]; intros k; [done|].
    cbn [imap length seq fmap list_fmap omap list_omap].
    rewrite Nat.add_0_r. f_equal.
    rewrite <- (IH (S k)). f_equal. apply imap_ext. intros i y _. simpl.
    by replace (k + S i)%nat with (S (k + i)) by lia. }
  apply (Hgen (letters st) 0%nat).
Qed.

Lemma length_initializeLetters cols rows rnd st :
  length (letters (initializeLetters cols rows rnd st)) = Z.to_nat (cols * rows).
Proof. unfold initializeLetters. simpl. by rewrite length_fmap, length_seq. Qed.

Lemma letters_tile cols rows rnd st :
  0 ≤ cols → 0 ≤ rows →
  let st' := initializeLetters cols rows rnd st in
  NoDup (positions (drawLetters st')) ∧
  ∀ x y, (x, y) ∈ positions (drawLetters st') ↔
         ∃ c r, 0 ≤ c < cols ∧ 0 ≤ r < rows ∧
                x = c * charWidth ∧ y = r * charHeight.
Proof.
  intros Hc Hr st'. rewrite positions_drawLetters.
  unfold st'. rewrite length_initializeLetters.
  change (columns (grid (initializeLetters cols rows rnd st))) with cols.
  unfold charWidth, charHeight.
  assert (∀ i : nat, (i < Z.to_nat (cols * rows))%nat →
            0 < cols ∧ 0 < rows ∧ 0 ≤ Z.of_nat i < cols * rows) as Hrange.
  { intros i Hi. assert (0 < cols * rows) by lia. nia. }
  split.
  - apply NoDup_fmap_2_strong; [|apply NoDup_seq].
    intros i j Hi%elem_of_seq Hj%elem_of_seq [= Hx Hy].
    destruct (Hrange i ltac:(lia)) as (Hcols & _ & Hi').
    rewrite !Z.rem_mod_nonneg in Hx by lia.
    pose proof (Z.div_mod (Z.of_nat i) cols ltac:(lia)).
    pose proof (Z.div_mod (Z.of_nat j) cols ltac:(lia)).
    nia.
  - intros x y. rewrite list_elem_of_fmap. split.
    + intros (i & [= -> ->] & Hi%elem_of_seq).
      destruct (Hrange i ltac:(lia)) as (Hcols & Hrows & Hi').
      rewrite Z.rem_mod_nonneg by lia.
      exists (Z.of_nat i mod cols), (Z.of_nat i / cols).
      pose proof (Z.mod_pos_bound (Z.of_nat i) cols Hcols).
      split; [lia|]. split; [|done].
      split; [apply Z.div_pos; lia|].
      apply Z.div_lt_upper_bound; lia.
    + intros (c & r & Hcr & Hrr & -> & ->).
      exists (Z.to_nat (r * cols + c)). split.
      * rewrite Z2Nat.id by nia. rewrite Z.rem_mod_nonneg by nia.
        rewrite Z.add_comm, Z.mod_add, Z.div_add, Z.mod_small, Z.div_small
          by lia.
        f_equal; lia.
      * apply elem_of_seq. nia.
Qed.

Lemma Math_ceil_nonneg (x : Qc) (d : Z) :
  0 < d → (0 ≤ x)%Qc → 0 ≤ Math_ceil (x / px d).
Proof.
  intros Hd Hx. destruct (Math_ceil_bounds x d Hd) as [_ Hle].
  destruct (decide (0 ≤ Math_ceil (x / px d))) as [|Hneg]; [done|].
  exfalso. apply (Qcle_not_lt _ _ (Qcle_trans _ _ _ Hx Hle)).
  unfold Qclt. rewrite this_px. change (this 0%Qc) with (inject_Z 0).
  rewrite <- Zlt_Qlt. nia.
Qed.

End tiling.

(** X26.  After a resize (the grid computed for the canvas, the letters
    created for it, then drawn), there is one letter per cell of the
    grid: no two letters are drawn at the same place, and the places are
    exactly the cells. *)
Theorem X26_letters_tile_grid (width height : Qc) (rnd : Random) st :
  (0 ≤ width)%Qc → (0 ≤ height)%Qc →
  let g := calculateGrid width height in
  let st' := initializeLetters (columns g) (rows g) rnd st in
  length (letters st') = Z.to_nat (columns g * rows g) ∧
  NoDup (positions (drawLetters st')) ∧
  ∀ x y, (x, y) ∈ positions (drawLetters st') ↔
         ∃ c r, (0 ≤ c < columns g)%Z ∧ (0 ≤ r < rows g)%Z ∧
                x = (c * charWidth)%Z ∧ y = (r * charHeight)%Z.
Proof.
  intros Hw Hh g st'.
  split; [apply length_initializeLetters|].
  apply letters_tile; by apply Math_ceil_nonneg.
Qed.

Lemma X26_letters_tile_grid_witness :
  positions
    (drawLetters
       (initializeLetters 3 2 (λ _, Q2Qc (1 # 2))
          (mkState [] (mkGrid 0 0) ["#fff"] (px 25) (px 30))))
  = [(0, 0); (10, 0); (20, 0); (0, 20); (10, 20); (20, 20)]%Z ∧
  NoDup
    (positions
       (drawLetters
          (initializeLetters 3 2 (λ _, Q2Qc (1 # 2))
             (mkState [] (mkGrid 0 0) ["#fff"] (px 25) (px 30))))).
Proof.
  split; [by vm_compute|].
  apply (X26_letters_tile_grid (px 25) (px 30) (λ _, Q2Qc (1 # 2))
           (mkState [] (mkGrid 0 0) ["#fff"] (px 25) (px 30))
           ltac:(by vm_compute) ltac:(by vm_compute)).
Defined.

Section random_letters.
Local Open Scope Z_scope.

Lemma at_index_elem_of (l : list string) (i : Z) :
  0 ≤ i < Z.of_nat (length l) → at_index l i ∈ l.
Proof.
  intros Hi. unfold at_index. rewrite bool_decide_true by lia.
  destruct (l !! Z.to_nat i) as [p|] eqn:Hp; simpl.
  - by eapply list_elem_of_lookup_2.
  - apply lookup_ge_None in Hp. lia.
Qed.

Lemma getRandomChar_in (r : Qc) :
  (0 ≤ r)%Qc → (r < 1)%Qc → getRandomChar r ∈ lettersAndSymbols.
Proof.
  intros H0 H1. apply at_index_elem_of, Math_floor_random; done.
Qed.

Lemma getRandomColor_in st (r : Qc) :
  glitchColors st ≠ [] → (0 ≤ r)%Qc → (r < 1)%Qc →
  getRandomColor st r ∈ glitchColors st.
Proof.
  intros Hne H0 H1. apply at_index_elem_of, Math_floor_random; try done.
  destruct (glitchColors st); [done|simpl; lia].
Qed.

End random_letters.

(** X27.  Every letter [initializeLetters] creates shows a character of the
    fixed alphabet in a colour of the current palette, is heading for a
    colour of the palette, and has its transition complete; the palette
    itself and the canvas size are left as they were. *)
Theorem X27_initializeLetters_letters (cols rows : Z) (rnd : Random) st :
  glitchColors st ≠ [] →
  (∀ k, (0 ≤ rnd k)%Qc ∧ (rnd k < 1)%Qc) →
  let st' := initializeLetters cols rows rnd st in
  glitchColors st' = glitchColors st ∧
  canvasWidth st' = canvasWidth st ∧ canvasHeight st' = canvasHeight st ∧
  ∀ letter, letter ∈ letters st' →
    char letter ∈ lettersAndSymbols ∧
    color letter ∈ glitchColors st ∧
    targetColor letter ∈ glitchColors st ∧
    colorProgress letter = px 1.
Proof.
  intros Hne Hrnd st'. do 3 (split; [done|]).
  intros letter. unfold st', initializeLetters. cbn [letters].
  intros (i & -> & _)%list_elem_of_fmap. cbn [char color targetColor colorProgress].
  split; [apply getRandomChar_in; apply Hrnd|].
  split; [apply getRandomColor_in; (done || apply Hrnd)|].
  split; [apply getRandomColor_in; (done || apply Hrnd)|done].
Qed.

Lemma X27_initializeLetters_letters_witness :
  Forall (λ letter, char letter ∈ lettersAndSymbols)
    (letters
       (initializeLetters 3 2 (λ k, Q2Qc (Z.of_nat k mod 4 # 4))
          (mkState [] (mkGrid 0 0) ["#0f0"; "#0ff"; "#00f"] (px 25) (px 30)))).
Proof.
  apply list.Forall_forall. intros letter Hin.
  apply (X27_initializeLetters_letters 3 2 (λ k, Q2Qc (Z.of_nat k mod 4 # 4))
           (mkState [] (mkGrid 0 0) ["#0f0"; "#0ff"; "#00f"] (px 25) (px 30)));
    [done| |done].
  intros k. pose proof (Z.mod_pos_bound (Z.of_nat k) 4 ltac:(lia)) as Hk.
  assert (∀ m : Z, (0 ≤ m < 4)%Z →
            (0 ≤ Q2Qc (m # 4))%Qc ∧ (Q2Qc (m # 4) < 1)%Qc) as Hall.
  { intros m Hm. unfold Qcle, Qclt. cbn [this Q2Qc].
    rewrite !Qred_correct. unfold Qle, Qlt. simpl. lia. }
  apply Hall, Hk.
Defined.
